(** * Patente exam simulator and bilingual content resolution

    A shallow embedding of two pieces of the front-end:

    - [LanguageContext]: [resolveContent] of the language provider, the
      function that decides which language variants of a text are shown;
    - [ExamSimulator]: the state of [ExamSimulatorPage], its handlers
      ([start], [handleAnswer], [goToQuestion], [nextQuestion],
      [prevQuestion], [finishExam]), the values derived while rendering the
      result and review screens, and the event loop that drives them
      (clicks, the one-second interval, the settling of [saveQuizResult]).

    React state variables become fields of a record, a handler becomes a
    function from the state before to the state after, and what the host
    platform supplies (the order produced by [Array.prototype.sort] under a
    random comparator, the clock, the outcome of the persistence call) is
    passed in explicitly. *)

From Stdlib Require Import ZArith List Ascii String Floats Lia.
From stdpp Require Import base strings gmap list.

Local Open Scope Z_scope.

(* ===================================================================== *)
(** ** Content resolution *)
(* ===================================================================== *)

Module LanguageContext.

(** [type UILanguage = 'ar' | 'it'] *)
Inductive UILanguage := ar | it.

(** [type ContentMode = 'ar' | 'it' | 'both'] *)
Inductive ContentMode := only_ar | only_it | both.

(** [interface ContentBlock { text; lang; secondary }] *)
Record ContentBlock := {
  text : string;
  lang : UILanguage;
  secondary : bool
}.

(** [resolveContent(ar, it)], closed over [uiLang] and [contentMode].
    The two early returns come first; the last [return] is the branch
    taken when [uiLang] is not ['it']. *)
Definition resolveContent (uiLang : UILanguage) (contentMode : ContentMode)
    (ar_text it_text : string) : list ContentBlock :=
  match contentMode with
  | only_ar => [ {| text := ar_text; lang := ar; secondary := false |} ]
  | only_it => [ {| text := it_text; lang := it; secondary := false |} ]
  | both =>
      match uiLang with
      | it => [ {| text := it_text; lang := it; secondary := false |};
                {| text := ar_text; lang := ar; secondary := true |} ]
      | ar => [ {| text := ar_text; lang := ar; secondary := false |};
                {| text := it_text; lang := it; secondary := true |} ]
      end
  end.

(** *** The documented behaviour, written from the specification *)

Definition other (l : UILanguage) : UILanguage :=
  match l with ar => it | it => ar end.

(** The variant of a bilingual text in language [l]. *)
Definition variant (l : UILanguage) (ar_text it_text : string) : string :=
  match l with ar => ar_text | it => it_text end.

Definition block (l : UILanguage) (sec : bool) (ar_text it_text : string)
    : ContentBlock :=
  {| text := variant l ar_text it_text; lang := l; secondary := sec |}.

(** "mode = one fixed language: single block in that language, marked
    non-secondary; mode = both: two blocks, the block matching the
    current UI language first (non-secondary), the other language second
    (secondary)". *)
Definition documented (uiLang : UILanguage) (contentMode : ContentMode)
    (ar_text it_text : string) : list ContentBlock :=
  match contentMode with
  | only_ar => [ block ar false ar_text it_text ]
  | only_it => [ block it false ar_text it_text ]
  | both => [ block uiLang false ar_text it_text;
              block (other uiLang) true ar_text it_text ]
  end.

(* --------------------------------------------------------------------- *)
(** *** Settings: initial values and persistence *)

(** [localStorage], as far as the provider uses it. *)
Abbreviation Storage := (gmap string string).







(** [toLowerCase] on the letters A to Z; no other character lower-cases
    to a letter of ["ar"]. *)
Definition lower_char (c : ascii) : ascii :=
  let n := nat_of_ascii c in
  if (65 <=? n)%nat && (n <=? 90)%nat then ascii_of_nat (n + 32) else c.

Fixpoint toLowerCase (s : string) : string :=
  match s with
  | EmptyString => EmptyString
  | String c s' => String (lower_char c) (toLowerCase s')
  end.

(** [s.split(sep)] for a one-character separator: never an empty list. *)
Fixpoint split_on (sep : ascii) (s : string) : list string :=
  match s with
  | EmptyString => [EmptyString]
  | String c s' =>
      if Ascii.eqb c sep then EmptyString :: split_on sep s'
      else match split_on sep s' with
           | [] => [String c EmptyString]
           | p :: ps => String c p :: ps
           end
  end.

(** [detectBrowserLanguage()], given [navigator.language]. *)
Definition detectBrowserLanguage (navigator_language : option string)
    : UILanguage :=
  match navigator_language with
  | Some tag =>
      match split_on "-" tag with
      | first :: _ => if String.eqb (toLowerCase first) "ar" then ar else it
      | [] => it
      end
  | None => it
  end.


(** The three state variables of the provider. *)
Record Settings := {
  uiLang : UILanguage;
  contentMode : ContentMode;
  smartLearning : bool
}.








(** [isRTL: uiLang === 'ar'] *)
Definition isRTL (st : Settings) : bool :=
  match uiLang st with ar => true | it => false end.

(* --------------------------------------------------------------------- *)
(** *** Messages: lookup and interpolation *)

(** A value of a locale table. An array is an object whose own
    properties are its indices and [length]; numbers, booleans and
    anything else that is neither an object, a string nor [null] are
    [JOther]. *)
#[warnings="-register-all"]
Inductive Json :=
| JNull
| JOther
| JStr (s : string)
| JObj (props : list (string * Json)).

(** [obj[part]]: the own property, [None] for [undefined]. *)
Fixpoint own_property (part : string) (props : list (string * Json))
    : option Json :=
  match props with
  | [] => None
  | (k, v) :: props' =>
      if String.eqb k part then Some v else own_property part props'
  end.

(** The loop of [deepGet]: [None] when it returns the key early, else the
    value of [cur] after the last part. *)
Fixpoint walk (parts : list string) (cur : option Json)
    : option (option Json) :=
  match parts with
  | [] => Some cur
  | part :: rest =>
      match cur with
      | Some (JObj props) => walk rest (own_property part props)
      | _ => None
      end
  end.

Definition deepGet (obj : list (string * Json)) (key : string) : string :=
  match walk (split_on "." key) (Some (JObj obj)) with
  | Some (Some (JStr s)) => s
  | _ => key
  end.

(** [\w] *)
Definition is_word (c : ascii) : bool :=
  let n := nat_of_ascii c in
  ((48 <=? n) && (n <=? 57) || (65 <=? n) && (n <=? 90)
   || (97 <=? n) && (n <=? 122) || (n =? 95))%nat.

(** The longest run of word characters at the start of [s], and what
    follows it. *)
Fixpoint span_word (s : string) : string * string :=
  match s with
  | EmptyString => (EmptyString, EmptyString)
  | String c s' =>
      if is_word c
      then let '(w, r) := span_word s' in (String c w, r)
      else (EmptyString, s)
  end.

(** A match of [\{\{(\w+)\}\}] at the start of [s]: the name captured. *)
Definition match_placeholder (s : string) : option string :=
  match s with
  | String "{" (String "{" s1) =>
      match span_word s1 with
      | (String c w, String "}" (String "}" _)) => Some (String c w)
      | _ => None
      end
  | _ => None
  end.

(** The replacer: the value as [String(vars[k])] renders it when
    [vars[k] !== undefined], the placeholder itself otherwise. [vars] is
    given by its lookup. *)
Definition replacement (vars : string -> option string) (k : string)
    : string :=
  match vars k with
  | Some v => v
  | None => ("{{" ++ k ++ "}}")%string
  end.

(** [str.replace(/\{\{(\w+)\}\}/g, replacer)]: matches are looked for
    from left to right; after a match the search goes on behind it, which
    is [skip] characters further. *)
Fixpoint replace_placeholders (vars : string -> option string) (skip : nat)
    (s : string) : string :=
  match s with
  | EmptyString => EmptyString
  | String c s' =>
      match skip with
      | S skip' => replace_placeholders vars skip' s'
      | O =>
          match match_placeholder s with
          | Some k =>
              (replacement vars k
               ++ replace_placeholders vars (String.length k + 3) s')%string
          | None => String c (replace_placeholders vars 0 s')
          end
      end
  end.

(** [interpolate(str, vars)]; [None] is a [vars] that is missing. *)
Definition interpolate (str : string) (vars : option (string -> option string))
    : string :=
  match vars with
  | None => str
  | Some lookup => replace_placeholders lookup 0 str
  end.

(** [t(key, vars)], given the table of the current language. *)
Definition t (messages : list (string * Json)) (key : string)
    (vars : option (string -> option string)) : string :=
  interpolate (deepGet messages key) vars.

(** The path [parts] joined with dots. *)
Fixpoint join_dots (parts : list string) : string :=
  match parts with
  | [] => EmptyString
  | [p] => p
  | p :: ps => (p ++ "." ++ join_dots ps)%string
  end.

(** The table that holds [v] under the path [p :: ps] and nothing else. *)
Fixpoint nest (p : string) (ps : list string) (v : Json)
    : list (string * Json) :=
  match ps with
  | [] => [(p, v)]
  | p' :: ps' => [(p, JObj (nest p' ps' v))]
  end.

(** No character of [s] is [c]. *)
Fixpoint free_of (c : ascii) (s : string) : bool :=
  match s with
  | EmptyString => true
  | String c' s' => negb (Ascii.eqb c' c) && free_of c s'
  end.

(** Every character of [s] is a word character. *)
Fixpoint all_word (s : string) : bool :=
  match s with
  | EmptyString => true
  | String c s' => is_word c && all_word s'
  end.

Definition sample_messages : list (string * Json) :=
  [ ("exam", JObj [ ("title", JStr "Esame");
                    ("left", JStr "{{n}} domande") ]);
    ("back", JStr "Indietro") ]%string.

End LanguageContext.


(* ===================================================================== *)
(** ** The exam simulator page *)
(* ===================================================================== *)

Module ExamSimulator.

(** *** Data *)

Inductive Difficulty := easy | medium | hard.

(** Modelled from the spec: the [Question] type of [@/db/database], which
    the page imports but which is declared elsewhere. The fields are the
    ones the page reads: identifier, the two language variants of the
    prompt, the boolean correct-answer flag, the difficulty tag, optional
    image and explanation. *)
Record Question := {
  id : string;
  questionAr : string;
  questionIt : string;
  isTrue : bool;
  difficulty : Difficulty;
  image : option string;
  explanationAr : option string
}.

(** The value type [boolean | null] of the answers record. A key that is
    absent reads as [undefined], which is [None] of the map lookup. *)
Inductive AnswerValue := VBool (b : bool) | VNull.

(** [useState<'intro' | 'exam' | 'review' | 'result'>] *)
Inductive Phase := Intro | Exam | Review | Result.

(** The state variables of the component, together with the [questions]
    it reads from the store. Numbers that the code uses as indices or
    times are integers; [startTime] is in milliseconds, [elapsed] in
    seconds. *)
Record State := {
  questions : list Question;
  examQuestions : list Question;
  currentIndex : Z;
  answers : gmap Z AnswerValue;
  phase : Phase;
  startTime : Z;
  elapsed : Z;
  showGrid : bool
}.

Definition EXAM_QUESTIONS : nat := 30.
Definition EXAM_TIME : Z := 30 * 60.
Definition MAX_ERRORS : Z := 3.

(** The state of a freshly mounted component. *)
Definition initial : State :=
  {| questions := []; examQuestions := []; currentIndex := 0;
     answers := ∅; phase := Intro; startTime := 0; elapsed := 0;
     showGrid := false |}.

(** *** JavaScript primitives used by the page *)

(** [arr[i]] for an integer [i]: [undefined] outside the array. *)
Definition at_index {A} (l : list A) (i : Z) : option A :=
  if i <? 0 then None else l !! Z.to_nat i.

(** [v === b] for a value read from the answers record and a boolean:
    [undefined] and [null] are never strictly equal to a boolean. *)
Definition strict_eq (v : option AnswerValue) (b : bool) : bool :=
  match v with
  | Some (VBool a) => Bool.eqb a b
  | _ => false
  end.

(** [v ?? d]: the default is taken for [undefined] and for [null]. *)
Definition nullish (v : option AnswerValue) (d : bool) : bool :=
  match v with
  | Some (VBool a) => a
  | _ => d
  end.

(** A small non-negative integer as a double. *)
Definition to_float (n : Z) : float := PrimFloat.of_uint63 (Uint63.of_Z n).

(** [Math.round]: the integer nearest to the exact value of the double,
    ties going up. [None] stands for a result that is not a finite number
    (here only [NaN], from [0 / 0]). *)
Definition Math_round (x : float) : option Z :=
  match Prim2SF x with
  | S754_zero _ => Some 0
  | S754_finite s m e =>
      let v := if s then Z.neg m else Z.pos m in
      if 0 <=? e then Some (v * 2 ^ e)
      else let d := 2 ^ (- e) in Some ((2 * v + d) / (2 * d))
  | _ => None
  end.

(** [Math.round((correct / total) * 100)], in double arithmetic. *)
Definition percentage (correct total : Z) : option Z :=
  Math_round (to_float correct / to_float total * 100)%float.

(** *** Sampling the questions *)

(** [Array.prototype.sort] called with the comparator
    [() => Math.random() - 0.5]. The comparator ignores its arguments, so
    the order that comes out is decided by the host's sorting algorithm
    and by the random draws; [Sorter] is that algorithm, a function of
    the random bits it consumes. *)
Definition Sorter := list bool -> list Question -> list Question.

(** What is assumed of the host: sorting rearranges, it neither drops nor
    duplicates elements. *)
Definition rearranges (sort : Sorter) : Prop :=
  forall rnd qs, sort rnd qs ≡ₚ qs.

(** [[...questions].sort(() => Math.random() - 0.5).slice(0, EXAM_QUESTIONS)] *)
Definition shuffled (sort : Sorter) (rnd : list bool) (qs : list Question)
    : list Question :=
  take EXAM_QUESTIONS (sort rnd qs).

(** *** Handlers *)

Definition start (sort : Sorter) (rnd : list bool) (now : Z) (st : State)
    : State :=
  {| questions := questions st;
     examQuestions := shuffled sort rnd (questions st);
     phase := Exam;
     startTime := now;
     currentIndex := 0;
     answers := ∅;
     elapsed := 0;
     showGrid := false |}.

Definition handleAnswer (val : bool) (st : State) : State :=
  {| questions := questions st; examQuestions := examQuestions st;
     currentIndex := currentIndex st;
     answers := <[currentIndex st := VBool val]> (answers st);
     phase := phase st; startTime := startTime st; elapsed := elapsed st;
     showGrid := showGrid st |}.

Definition setCurrentIndex (i : Z) (st : State) : State :=
  {| questions := questions st; examQuestions := examQuestions st;
     currentIndex := i; answers := answers st; phase := phase st;
     startTime := startTime st; elapsed := elapsed st;
     showGrid := showGrid st |}.

Definition setShowGrid (b : bool) (st : State) : State :=
  {| questions := questions st; examQuestions := examQuestions st;
     currentIndex := currentIndex st; answers := answers st;
     phase := phase st; startTime := startTime st; elapsed := elapsed st;
     showGrid := b |}.

Definition setPhase (p : Phase) (st : State) : State :=
  {| questions := questions st; examQuestions := examQuestions st;
     currentIndex := currentIndex st; answers := answers st;
     phase := p; startTime := startTime st; elapsed := elapsed st;
     showGrid := showGrid st |}.

Definition setElapsed (e : Z) (st : State) : State :=
  {| questions := questions st; examQuestions := examQuestions st;
     currentIndex := currentIndex st; answers := answers st;
     phase := phase st; startTime := startTime st; elapsed := e;
     showGrid := showGrid st |}.

(** [goToQuestion(idx)]: [setCurrentIndex(idx); setShowGrid(false)]. *)
Definition goToQuestion (idx : Z) (st : State) : State :=
  setShowGrid false (setCurrentIndex idx st).

Definition nextQuestion (st : State) : State :=
  if currentIndex st <? Z.of_nat (length (examQuestions st)) - 1
  then setCurrentIndex (currentIndex st + 1) st
  else st.

Definition prevQuestion (st : State) : State :=
  if 0 <? currentIndex st
  then setCurrentIndex (currentIndex st - 1) st
  else st.

(** *** finishExam *)

(** An entry of the per-question answer list of the persisted record. *)
Record AnsweredEntry := {
  questionId : string;
  userAnswer : bool;
  correct : bool
}.

(** The argument of [saveQuizResult]. *)
Record QuizResult := {
  topicId : string;
  lessonId : string;
  score : option Z;
  totalQuestions : Z;
  correctAnswers : Z;
  wrongAnswers : Z;
  timeSpent : Z;
  answeredEntries : list AnsweredEntry
}.

Definition answeredList (st : State) : list AnsweredEntry :=
  imap (fun i q =>
          {| questionId := id q;
             userAnswer := nullish (answers st !! Z.of_nat i) false;
             correct := strict_eq (answers st !! Z.of_nat i) (isTrue q) |})
       (examQuestions st).

Definition correctCount (st : State) : Z :=
  Z.of_nat (length (List.filter correct (answeredList st))).

(** The first half of [finishExam], up to the [await]: the record that is
    handed to [saveQuizResult] when [finishExam] is called at time [now]
    in a render whose state is [st]. *)
Definition quizResult (now : Z) (st : State) : QuizResult :=
  let total := Z.of_nat (length (examQuestions st)) in
  {| topicId := "exam-simulator";
     lessonId := EmptyString;
     score := percentage (correctCount st) total;
     totalQuestions := total;
     correctAnswers := correctCount st;
     wrongAnswers := total - correctCount st;
     timeSpent := (now - startTime st) / 1000;
     answeredEntries := answeredList st |}.

(** How the promise returned by [saveQuizResult] settles. The value it
    resolves with is discarded by [finishExam], so a failure can reach
    [finishExam] only as a rejection. *)
Inductive SaveOutcome := Resolved | Rejected.

(** The second half of [finishExam], after the [await]: [setPhase('result')]
    when the promise resolved; when it rejected the [await] throws and the
    rest of the function is skipped. *)
Definition finishExam_resume (o : SaveOutcome) (st : State) : State :=
  match o with
  | Resolved => setPhase Result st
  | Rejected => st
  end.

(** *** Values derived while rendering *)

(** [Object.keys(answers).length] *)
Definition answeredCount (st : State) : Z := Z.of_nat (size (answers st)).

(** The result screen. *)
Record ResultRow := {
  question : Question;
  answer : option AnswerValue;
  row_correct : bool
}.

Definition results (st : State) : list ResultRow :=
  imap (fun i q =>
          {| question := q;
             answer := answers st !! Z.of_nat i;
             row_correct := strict_eq (answers st !! Z.of_nat i) (isTrue q) |})
       (examQuestions st).

Definition result_correctCount (st : State) : Z :=
  Z.of_nat (length (List.filter row_correct (results st))).

Definition errors (st : State) : Z :=
  Z.of_nat (length (List.filter (fun r => negb (row_correct r)) (results st))).

Definition unanswered (st : State) : Z :=
  Z.of_nat (length (examQuestions st)) - answeredCount st.

Definition passed (st : State) : bool := errors st <=? MAX_ERRORS.

Definition result_score (st : State) : option Z :=
  percentage (result_correctCount st) (Z.of_nat (length (examQuestions st))).

(** The review screen: [Object.entries(answers).filter(...).length], where
    an entry counts when its key names a question of the session and its
    value differs from that question's flag. *)
Definition totalErrors (st : State) : Z :=
  Z.of_nat (length (List.filter
    (fun '(i, a) =>
       match at_index (examQuestions st) i with
       | Some q => negb (strict_eq (Some a) (isTrue q))
       | None => false
       end)
    (map_to_list (answers st)))).

Definition review_passed (st : State) : bool := totalErrors st <=? MAX_ERRORS.

(** Which screen the component returns, in the order of its [if]s. *)
Inductive View :=
| EmptyState | IntroScreen | ResultScreen | ReviewScreen
| Blank | ExamScreen.

Definition view (st : State) : View :=
  if (length (examQuestions st) =? 0)%nat && (length (questions st) =? 0)%nat
  then EmptyState
  else match phase st with
       | Intro => IntroScreen
       | Result => ResultScreen
       | Review => ReviewScreen
       | Exam =>
           match at_index (examQuestions st) (currentIndex st) with
           | Some _ => ExamScreen
           | None => Blank
           end
       end.

(** *** The event loop *)

(** The component between two events: the committed state [ui]; the
    render whose [finishExam] the running interval callback closed over
    ([None] when no interval is set); the number of [finishExam] calls
    suspended at their [await]; and the records handed to
    [saveQuizResult] so far, oldest first. *)
Record World := {
  ui : State;
  interval : option State;
  awaiting : nat;
  persisted : list QuizResult
}.

Definition mounted : World :=
  {| ui := initial; interval := None; awaiting := 0%nat; persisted := [] |}.

Definition Phase_eqb (p q : Phase) : bool :=
  match p, q with
  | Intro, Intro | Exam, Exam | Review, Review | Result, Result => true
  | _, _ => false
  end.

(** The effect with dependencies [[phase, startTime]]: it runs again only
    when one of the two changed. Its cleanup clears the old interval, and a
    new interval is set when the phase is ['exam']; the callback of the new
    interval closes over the render being committed. *)
Definition timer_effect (before after : State) (iv : option State)
    : option State :=
  if Phase_eqb (phase after) (phase before) && (startTime after =? startTime before)
  then iv
  else match phase after with
       | Exam => Some after
       | _ => None
       end.

(** Committing a new state: re-render and run the effects. *)
Definition commit (after : State) (w : World) : World :=
  {| ui := after;
     interval := timer_effect (ui w) after (interval w);
     awaiting := awaiting w;
     persisted := persisted w |}.

Definition setQuestions (qs : list Question) (st : State) : State :=
  {| questions := qs; examQuestions := examQuestions st;
     currentIndex := currentIndex st; answers := answers st;
     phase := phase st; startTime := startTime st; elapsed := elapsed st;
     showGrid := showGrid st |}.

Definition setExamQuestions (qs : list Question) (st : State) : State :=
  {| questions := questions st; examQuestions := qs;
     currentIndex := currentIndex st; answers := answers st;
     phase := phase st; startTime := startTime st; elapsed := elapsed st;
     showGrid := showGrid st |}.

(** The effect with dependencies [[questions, examQuestions.length]]. *)
Definition sampling_effect (sort : Sorter) (rnd : list bool) (st : State)
    : State :=
  if (0 <? length (questions st))%nat && (length (examQuestions st) =? 0)%nat
  then setExamQuestions (shuffled sort rnd (questions st)) st
  else st.

(** A call of [finishExam] at time [now], from a render whose state was
    [closure]: the record is built from that render's state and handed to
    [saveQuizResult]; the call then waits. *)
Definition call_finishExam (now : Z) (closure : State) (w : World) : World :=
  {| ui := ui w;
     interval := interval w;
     awaiting := S (awaiting w);
     persisted := persisted w ++ [quizResult now closure] |}.

Inductive Event :=
| QuestionsLoaded (qs : list Question) (rnd : list bool)
| ClickStart (rnd : list bool) (now : Z)
| ClickAnswer (val : bool)
| ToggleGrid
| ClickGrid (i : nat)
| ClickNext
| ClickPrev
| ClickSubmit (now : Z)
| Tick (now : Z)
| SaveSettled (o : SaveOutcome)
| ClickReview
| ClickBackToResult.

(** One turn of the event loop. [None]: the event cannot happen in this
    state (the control is not on the screen, no interval is set, no call
    is waiting). *)
Definition step (sort : Sorter) (ev : Event) (w : World) : option World :=
  let st := ui w in
  match ev with
  | QuestionsLoaded qs rnd =>
      Some (commit (sampling_effect sort rnd (setQuestions qs st)) w)
  | ClickStart rnd now =>
      match view st with
      | IntroScreen | ResultScreen => Some (commit (start sort rnd now st) w)
      | _ => None
      end
  | ClickAnswer val =>
      match view st with
      | ExamScreen => Some (commit (handleAnswer val st) w)
      | _ => None
      end
  | ToggleGrid =>
      match view st with
      | ExamScreen => Some (commit (setShowGrid (negb (showGrid st)) st) w)
      | _ => None
      end
  | ClickGrid i =>
      match view st with
      | ExamScreen =>
          if showGrid st && (i <? length (examQuestions st))%nat
          then Some (commit (goToQuestion (Z.of_nat i) st) w)
          else None
      | _ => None
      end
  | ClickNext =>
      match view st with
      | ExamScreen => Some (commit (nextQuestion st) w)
      | _ => None
      end
  | ClickPrev =>
      match view st with
      | ExamScreen => Some (commit (prevQuestion st) w)
      | _ => None
      end
  | ClickSubmit now =>
      match view st with
      | ExamScreen => Some (call_finishExam now st w)
      | _ => None
      end
  | Tick now =>
      match interval w with
      | Some closure =>
          let e := (now - startTime closure) / 1000 in
          let w' := commit (setElapsed e st) w in
          Some (if EXAM_TIME <=? e then call_finishExam now closure w' else w')
      | None => None
      end
  | SaveSettled o =>
      match awaiting w with
      | S n =>
          Some (commit (finishExam_resume o st)
                  {| ui := st; interval := interval w; awaiting := n;
                     persisted := persisted w |})
      | O => None
      end
  | ClickReview =>
      match view st with
      | ResultScreen => Some (commit (setPhase Review st) w)
      | _ => None
      end
  | ClickBackToResult =>
      match view st with
      | ReviewScreen => Some (commit (setPhase Result st) w)
      | _ => None
      end
  end.

Fixpoint run (sort : Sorter) (evs : list Event) (w : World) : option World :=
  match evs with
  | [] => Some w
  | ev :: evs' =>
      match step sort ev w with
      | Some w' => run sort evs' w'
      | None => None
      end
  end.

(** *** A sample host sort *)

(** Insertion sort driven by the random bits: a bit [true] stands for a
    negative comparator result ("the first argument goes first"). When the
    bits run out the element stays where it is. *)
Fixpoint insert_rnd (x : Question) (l : list Question) (rnd : list bool)
    : list Question * list bool :=
  match l with
  | [] => ([x], rnd)
  | y :: l' =>
      match rnd with
      | [] => (x :: l, [])
      | true :: rnd' => (x :: l, rnd')
      | false :: rnd' =>
          let '(l'', rnd'') := insert_rnd x l' rnd' in (y :: l'', rnd'')
      end
  end.

Fixpoint insertion_pass (qs : list Question) (rnd : list bool)
    : list Question * list bool :=
  match qs with
  | [] => ([], rnd)
  | x :: qs' =>
      let '(sorted, rnd') := insertion_pass qs' rnd in
      insert_rnd x sorted rnd'
  end.

Definition insertion_sorter : Sorter :=
  fun rnd qs => fst (insertion_pass qs rnd).

(** *** Uniform sampling, by counting *)

(** All sequences of [k] random bits; each is equally likely. *)
Fixpoint bitstrings (k : nat) : list (list bool) :=
  match k with
  | O => [[]]
  | S k' => map (cons true) (bitstrings k') ++ map (cons false) (bitstrings k')
  end.

(** The identifiers of the session that [start] produces. *)
Definition session_ids (sort : Sorter) (rnd : list bool) (st : State)
    : list string :=
  map id (examQuestions (start sort rnd 0 st)).

(** In how many of the [2^k] equally likely draws [start] produces the
    sequence [o]. *)
Definition tally (sort : Sorter) (k : nat) (st : State) (o : list string)
    : nat :=
  length (List.filter (fun rnd => bool_decide (session_ids sort rnd st = o))
            (bitstrings k)).

(** [o] is a sequence of [min(30, pool size)] identifiers of the pool,
    none taken twice. *)
Definition is_sample (pool : list Question) (o : list string) : Prop :=
  NoDup o /\ (forall x, x ∈ o -> x ∈ map id pool) /\
  length o = Nat.min EXAM_QUESTIONS (length pool).

(** Sampling is uniform when every such sequence is equally likely. *)
Definition uniform_start (sort : Sorter) (k : nat) (st : State) : Prop :=
  forall o1 o2,
    is_sample (questions st) o1 -> is_sample (questions st) o2 ->
    tally sort k st o1 = tally sort k st o2.

(** *** Vocabulary of the specification *)

#[global] Instance AnswerValue_eq_dec : EqDecision AnswerValue.
Proof. solve_decision. Defined.

(** What happened at a position of the session: the recorded answer equals
    the question's flag, an answer is recorded that does not, or nothing
    is recorded. *)
Inductive Outcome := AnsweredCorrect | AnsweredWrong | Unanswered.

#[global] Instance Outcome_eq_dec : EqDecision Outcome.
Proof. solve_decision. Defined.

Definition outcome_of (m : gmap Z AnswerValue) (i : nat) (q : Question)
    : Outcome :=
  match m !! Z.of_nat i with
  | None => Unanswered
  | Some v => if decide (v = VBool (isTrue q)) then AnsweredCorrect
              else AnsweredWrong
  end.

Definition outcome (st : State) : nat -> Question -> Outcome :=
  outcome_of (answers st).

(** The outcomes at positions [0 .. T-1]. *)
Definition outcomes (st : State) : list Outcome :=
  imap (outcome st) (examQuestions st).

(** The number of positions with outcome [o]. *)
Definition positions (o : Outcome) (st : State) : Z :=
  Z.of_nat (length (List.filter (fun o' => bool_decide (o' = o)) (outcomes st))).

(** [round(num / den)], ties going up, for [den > 0]. *)
Definition round_ratio (num den : Z) : Z := (2 * num + den) / (2 * den).

(** The check that, for every total from 1 to [bound] and every count up
    to the total, the double computation agrees with exact rounding. *)
Definition percentage_table (bound : nat) : bool :=
  forallb (fun t =>
    forallb (fun c =>
      match percentage (Z.of_nat c) (Z.of_nat t) with
      | Some z => z =? round_ratio (100 * Z.of_nat c) (Z.of_nat t)
      | None => false
      end) (seq 0 (S t))) (seq 1 bound).

(** The index clamped to [[0, len - 1]]. *)
Definition clamp (idx : Z) (len : nat) : Z :=
  Z.max 0 (Z.min idx (Z.of_nat len - 1)).

(** *** Sample data *)

Definition mkQuestion (name : string) (flag : bool) : Question :=
  {| id := name; questionAr := EmptyString; questionIt := EmptyString;
     isTrue := flag;
     difficulty := easy; image := None; explanationAr := None |}.

Definition pool3 : list Question :=
  [ mkQuestion "a" true; mkQuestion "b" false; mkQuestion "c" true ].

(** Thirty questions whose flag is [true], with distinct identifiers. *)
Definition pool30 : list Question :=
  map (fun n => mkQuestion (String (Ascii.ascii_of_nat (65 + n)) EmptyString)
                         true)
      (seq 0 30).

(** A session over [qs] in which exactly the first [n] questions were
    answered, each with [true]. *)
Definition answered_first (n : nat) (qs : list Question) (p : Phase) : State :=
  {| questions := qs; examQuestions := qs; currentIndex := 0;
     answers := list_to_map (map (fun i => (Z.of_nat i, VBool true)) (seq 0 n));
     phase := p; startTime := 0; elapsed := 0; showGrid := false |}.

(** Sample sessions over [pool30]: 26 or 27 right answers and the rest
    left open. *)
Definition session_26_of_30 : State := answered_first 26 pool30 Exam.
Definition session_27_of_30 : State := answered_first 27 pool30 Exam.

(** A session of one question, not answered. *)
Definition session_1_open (flag : bool) : State :=
  answered_first 0 [mkQuestion "q" flag] Exam.

(** The same session after the user answered "false". *)
Definition session_1_false (flag : bool) : State :=
  handleAnswer false (session_1_open flag).

(** A session of four questions, none answered. *)
Definition session_4_open : State := answered_first 0 (take 4 pool30) Exam.

(** A session over [pool3], nothing answered yet. *)
Definition session_pool3 : State := answered_first 0 pool3 Exam.

(** *** Sample runs *)

(** One question is loaded, the exam is started at time 0, the user
    answers "true" (the right answer), and the thirty minutes run out:
    the interval fires at 1800 s and again at 1801 s before the two
    persistence calls resolve. *)
Definition timeout_run : list Event :=
  [ QuestionsLoaded [mkQuestion "q" true] []; ClickStart [] 0;
    ClickAnswer true; Tick 1800000; Tick 1801000;
    SaveSettled Resolved; SaveSettled Resolved ].

(** The same exam, submitted by hand after five seconds. *)
Definition submit_run (o : SaveOutcome) : list Event :=
  [ QuestionsLoaded [mkQuestion "q" true] []; ClickStart [] 0;
    ClickAnswer true; ClickSubmit 5000; SaveSettled o ].

(** The store first holds one question and then none; the start button
    of the intro screen is pressed after that. *)
Definition emptied_pool_run : list Event :=
  [ QuestionsLoaded [mkQuestion "q" true] []; QuestionsLoaded [] [];
    ClickStart [] 0 ].

(** *** What holds of the running interval *)

(** Whenever an interval is set, the phase is ['exam'] and the render its
    callback closed over has the committed start time and an empty answer
    record. *)
Definition timer_inv (w : World) : Prop :=
  match interval w with
  | Some closure =>
      phase (ui w) = Exam /\ answers closure = ∅
      /\ startTime closure = startTime (ui w)
  | None => True
  end.

(** The exam over [pool3] right after the submit button was pressed at
    five seconds: one call of [finishExam] is waiting. *)
Definition submitted_pool3 : World :=
  call_finishExam 5000 session_pool3
    {| ui := session_pool3; interval := Some session_pool3;
       awaiting := 0%nat; persisted := [] |}.

(** How [submitted_pool3] continues when the persistence call settles. *)
Definition settled_pool3 (o : SaveOutcome) : World :=
  commit (finishExam_resume o session_pool3)
    {| ui := session_pool3; interval := Some session_pool3;
       awaiting := 0%nat; persisted := [quizResult 5000 session_pool3] |}.

(** *** What holds of the session size *)

(** A session never has more than [EXAM_QUESTIONS] questions, on the
    screen or in the render the interval closed over. *)
Definition size_inv (w : World) : Prop :=
  (length (examQuestions (ui w)) <= EXAM_QUESTIONS)%nat
  /\ match interval w with
     | Some closure => (length (examQuestions closure) <= EXAM_QUESTIONS)%nat
     | None => True
     end.

(** A persisted record over at least one question carries the exactly
    rounded percentage of its correct answers. *)
Definition record_scored (r : QuizResult) : Prop :=
  1 <= totalQuestions r ->
  score r = Some (round_ratio (100 * correctAnswers r) (totalQuestions r)).

(* --------------------------------------------------------------------- *)
(** *** The clock on the screen *)

(** [Math.max(0, EXAM_TIME - elapsed)] *)
Definition remaining (st : State) : Z := Z.max 0 (EXAM_TIME - elapsed st).

Definition digit_char (d : Z) : Ascii.ascii :=
  Ascii.ascii_of_nat (48 + Z.to_nat d).

(** The decimal digits of a non-negative integer, most significant first;
    [fuel] bounds the number of digits. *)
Fixpoint digits (fuel : nat) (n : Z) (acc : string) : string :=
  let acc' := String (digit_char (n mod 10)) acc in
  match fuel with
  | O => acc'
  | S fuel' => if n <? 10 then acc' else digits fuel' (n / 10) acc'
  end.

(** [n.toString()] for an integer [n]. *)
Definition toString (n : Z) : string :=
  if n <? 0 then String "-"%char (digits (Z.to_nat (Z.log2 (- n))) (- n) EmptyString)
  else digits (Z.to_nat (Z.log2 n)) n EmptyString.

Fixpoint repeat_char (n : nat) (c : Ascii.ascii) (s : string) : string :=
  match n with
  | O => s
  | S n' => String c (repeat_char n' c s)
  end.

(** [s.padStart(n, c)] for a one-character filler. *)
Definition padStart (n : nat) (c : Ascii.ascii) (s : string) : string :=
  repeat_char (n - String.length s) c s.

(** [fmt(s)]: [Math.floor(s / 60)] and [s % 60], each padded to two
    characters, with a colon between. [%] takes the sign of [s]. *)
Definition fmt (s : Z) : string :=
  (padStart 2 "0"%char (toString (s / 60)) ++ ":"
   ++ padStart 2 "0"%char (toString (Z.rem s 60)))%string.

(* --------------------------------------------------------------------- *)
(** *** The event loop as a relation *)

(** The interval callback at time [now], closed over [closure]. *)
Definition tick (now : Z) (closure : State) (w : World) : World :=
  let e := (now - startTime closure) / 1000 in
  let w' := commit (setElapsed e (ui w)) w in
  if EXAM_TIME <=? e then call_finishExam now closure w' else w'.

(** The continuation of the oldest waiting [finishExam]. *)
Definition settle (o : SaveOutcome) (n : nat) (w : World) : World :=
  commit (finishExam_resume o (ui w))
    {| ui := ui w; interval := interval w; awaiting := n;
       persisted := persisted w |}.

(** [Step sort w ev w']: event [ev] can happen in [w] and leads to [w']. *)
Inductive Step (sort : Sorter) (w : World) : Event -> World -> Prop :=
| Step_load qs rnd :
    Step sort w (QuestionsLoaded qs rnd)
      (commit (sampling_effect sort rnd (setQuestions qs (ui w))) w)
| Step_start rnd now :
    view (ui w) = IntroScreen \/ view (ui w) = ResultScreen ->
    Step sort w (ClickStart rnd now) (commit (start sort rnd now (ui w)) w)
| Step_answer val :
    view (ui w) = ExamScreen ->
    Step sort w (ClickAnswer val) (commit (handleAnswer val (ui w)) w)
| Step_toggle :
    view (ui w) = ExamScreen ->
    Step sort w ToggleGrid
      (commit (setShowGrid (negb (showGrid (ui w))) (ui w)) w)
| Step_grid i :
    view (ui w) = ExamScreen -> showGrid (ui w) = true ->
    (i < length (examQuestions (ui w)))%nat ->
    Step sort w (ClickGrid i) (commit (goToQuestion (Z.of_nat i) (ui w)) w)
| Step_next :
    view (ui w) = ExamScreen ->
    Step sort w ClickNext (commit (nextQuestion (ui w)) w)
| Step_prev :
    view (ui w) = ExamScreen ->
    Step sort w ClickPrev (commit (prevQuestion (ui w)) w)
| Step_submit now :
    view (ui w) = ExamScreen ->
    Step sort w (ClickSubmit now) (call_finishExam now (ui w) w)
| Step_tick now closure :
    interval w = Some closure ->
    Step sort w (Tick now) (tick now closure w)
| Step_settle o n :
    awaiting w = S n ->
    Step sort w (SaveSettled o) (settle o n w)
| Step_review :
    view (ui w) = ResultScreen ->
    Step sort w ClickReview (commit (setPhase Review (ui w)) w)
| Step_back :
    view (ui w) = ReviewScreen ->
    Step sort w ClickBackToResult (commit (setPhase Result (ui w)) w).

(* --------------------------------------------------------------------- *)
(** *** What holds of the cursor and of the answers *)

(** The cursor points at a question of the session; with no question at
    all it rests at 0. *)
Definition cursor_inv (st : State) : Prop :=
  0 <= currentIndex st
  /\ (currentIndex st < Z.of_nat (length (examQuestions st))
      \/ (examQuestions st = [] /\ currentIndex st = 0)).

(** Every recorded answer is a boolean, recorded for a question of the
    session. *)
Definition answers_inv (st : State) : Prop :=
  forall k v, answers st !! k = Some v ->
    0 <= k < Z.of_nat (length (examQuestions st)) /\ exists b, v = VBool b.

(** The exam of [session_pool3] with its interval running. *)
Definition running_pool3 : World :=
  {| ui := session_pool3; interval := Some session_pool3;
     awaiting := 0%nat; persisted := [] |}.

(** Questions loaded and the exam started at time 0. *)
Definition started_run : list Event :=
  [ QuestionsLoaded pool3 [true; false; true]; ClickStart [false; true] 0 ].

(** The check that [fmt] gives the two digits of the minutes, a colon and
    the two digits of the seconds, for every number of seconds below
    [bound]. *)
Definition fmt_table (bound : Z) : bool :=
  forallb (fun n =>
    let s := Z.of_nat n in
    String.eqb (fmt s)
      (String (digit_char (s / 60 / 10))
         (String (digit_char ((s / 60) mod 10))
            (String ":"%char
               (String (digit_char (s mod 60 / 10))
                  (String (digit_char ((s mod 60) mod 10)) EmptyString))))))
    (seq 0 (Z.to_nat bound)).

End ExamSimulator.

(* ===================================================================== *)
(** ** The community page: threads and follows *)
(* ===================================================================== *)

Module Community.

(** The [Comment] type is declared in [@/db/database]; [id] and [content]
    are the fields that the functions below read. *)
Record Comment := {
  comment_id : string;
  content : string
}.

Definition REPLY_PREFIX : string := "REPLY_TO:".

(** [c.content.startsWith('REPLY_TO:')] *)
Definition isReply (c : Comment) : bool :=
  String.prefix REPLY_PREFIX (content c).

(** The longest run of characters other than [":"] at the start of [s],
    and what follows it: the greedy [[^:]+]. *)
Fixpoint span_non_colon (s : string) : string * string :=
  match s with
  | EmptyString => (EmptyString, EmptyString)
  | String c s' =>
      if Ascii.eqb c ":" then (EmptyString, s)
      else let '(p, r) := span_non_colon s' in (String c p, r)
  end.

Fixpoint drop_chars (n : nat) (s : string) : string :=
  match n, s with
  | S n', String _ s' => drop_chars n' s'
  | _, _ => s
  end.

(** A match of [/^REPLY_TO:([^:]+):/]: the captured group and the text
    behind the match. *)
Definition match_reply (s : string) : option (string * string) :=
  if String.prefix REPLY_PREFIX s then
    match span_non_colon (drop_chars (String.length REPLY_PREFIX) s) with
    | (String c p, String ":" r) => Some (String c p, r)
    | _ => None
    end
  else None.

Definition getParentId (c : Comment) : option string :=
  if isReply c then
    match match_reply (content c) with
    | Some (parent, _) => Some parent
    | None => None
    end
  else None.

(** [c.content.replace(/^REPLY_TO:[^:]+:/, '')] *)
Definition getReplyContent (c : Comment) : string :=
  match match_reply (content c) with
  | Some (_, text) => text
  | None => content c
  end.

(** The content that [handleReply] passes to [createComment]:
    [`REPLY_TO:${replyingTo.commentId}:${replyContent}`]. *)
Definition reply_content (commentId replyContent : string) : string :=
  (REPLY_PREFIX ++ commentId ++ ":" ++ replyContent)%string.

(** [comments.filter(c => !isReply(c))] *)
Definition rootComments (cmts : list Comment) : list Comment :=
  List.filter (fun c => negb (isReply c)) cmts.

(** [cmts.filter(c => getParentId(c) === commentId)] *)
Definition getReplies (commentId : string) (cmts : list Comment)
    : list Comment :=
  List.filter (fun c => match getParentId c with
                        | Some parent => String.eqb parent commentId
                        | None => false
                        end) cmts.

(** [toggleFollow(userId)]: nothing without a signed-in user; else the
    new list of followed users. *)
Definition toggleFollow (user : option string) (userId : string)
    (following : list string) : list string :=
  match user with
  | None => following
  | Some _ =>
      if existsb (String.eqb userId) following
      then List.filter (fun i => negb (String.eqb i userId)) following
      else following ++ [userId]
  end.



End Community.

(* ===================================================================== *)
(** ** Properties of content resolution *)
(* ===================================================================== *)

Module LanguageContextSpec.
Import LanguageContext.

(** C4. For each of the six pairs (uiLanguage, contentMode),
  [resolveContent] returns exactly the documented list of blocks: one
  non-secondary block in the fixed language, or, in mode [both], the
  block of the UI language first (non-secondary) and the block of the
  other language second (secondary). In particular (it, both) gives
  [it(primary); ar(secondary)] and (ar, it) gives [it(primary)] only. *)
Theorem resolveContent_documented :
(forall ui mode a i, resolveContent ui mode a i = documented ui mode a i)
/\ (forall a i, resolveContent it both a i =
      [ {| text := i; lang := it; secondary := false |};
        {| text := a; lang := ar; secondary := true |} ])
/\ (forall a i, resolveContent it only_it a i =
      [ {| text := i; lang := it; secondary := false |} ])
/\ (forall a i, resolveContent it only_ar a i =
      [ {| text := a; lang := ar; secondary := false |} ])
/\ (forall a i, resolveContent ar both a i =
      [ {| text := a; lang := ar; secondary := false |};
        {| text := i; lang := it; secondary := true |} ])
/\ (forall a i, resolveContent ar only_ar a i =
      [ {| text := a; lang := ar; secondary := false |} ])
/\ (forall a i, resolveContent ar only_it a i =
      [ {| text := i; lang := it; secondary := false |} ]).
Proof.
split; [ intros [] [] a i; reflexivity | ].
repeat split; intros; reflexivity.
Qed.

(** *** Settings *)




(** *** Splitting a key *)

Lemma append_nil (s : string) : (EmptyString ++ s)%string = s.
Proof. reflexivity. Qed.

Lemma append_cons (c : ascii) (a s : string) :
  (String c a ++ s)%string = String c (a ++ s)%string.
Proof. reflexivity. Qed.

Lemma string_append_assoc (a b c : string) :
  ((a ++ b) ++ c)%string = (a ++ (b ++ c))%string.
Proof.
  induction a as [|x a IH]; [reflexivity|].
  rewrite !append_cons, IH. reflexivity.
Qed.

Lemma split_on_nonempty (sep : ascii) (s : string) : split_on sep s <> [].
Proof.
  destruct s as [|c s]; cbn [split_on]; [discriminate|].
  destruct (Ascii.eqb c sep); [discriminate|].
  destruct (split_on sep s); discriminate.
Qed.

(** A string without the separator is its own single part. *)
Lemma split_on_free (sep : ascii) (s : string) :
  free_of sep s = true -> split_on sep s = [s].
Proof.
  induction s as [|c s IH]; [reflexivity|].
  cbn [split_on free_of]. destruct (Ascii.eqb c sep); [discriminate|].
  cbn [negb andb]. intros H. rewrite (IH H). reflexivity.
Qed.

(** A string without the separator, the separator, and more: the first
    part is that string. *)
Lemma split_on_app (sep : ascii) (a rest : string) :
  free_of sep a = true ->
  split_on sep (a ++ String sep rest) = a :: split_on sep rest.
Proof.
  induction a as [|c a IH];
    rewrite ?append_nil, ?append_cons; cbn [split_on free_of].
  - intros _. rewrite Ascii.eqb_refl. reflexivity.
  - destruct (Ascii.eqb c sep); [discriminate|]. cbn [negb andb].
    intros H. rewrite (IH H). reflexivity.
Qed.

Lemma split_on_join (p : string) (ps : list string) :
  free_of "." p = true -> Forall (fun q => free_of "." q = true) ps ->
  split_on "." (join_dots (p :: ps)) = p :: ps.
Proof.
  revert p. induction ps as [|q ps IH]; intros p Hp Hps.
  - cbn. apply split_on_free, Hp.
  - inversion Hps as [|? ? Hq Hps']; subst.
    change (join_dots (p :: q :: ps))
      with (p ++ String "." (join_dots (q :: ps)))%string.
    rewrite (split_on_app "." p _ Hp), (IH q Hq Hps'). reflexivity.
Qed.

Lemma walk_nest (p : string) (ps : list string) (v : Json) :
  walk (p :: ps) (Some (JObj (nest p ps v))) = Some (Some v).
Proof.
  revert p. induction ps as [|q ps IH]; intros p.
  - cbn. rewrite String.eqb_refl. reflexivity.
  - cbn [nest walk own_property]. rewrite String.eqb_refl. apply IH.
Qed.

(** X17. [deepGet] finds what was put under a dotted path: in the table
    that holds the string [s] under the path of parts [p], [ps] (none of
    which contains a dot), looking up the parts joined with dots gives
    [s]. For a key without a dot, [deepGet] gives the string stored under
    that key, and the key itself when nothing is stored there or what is
    stored is not a string. *)
Theorem deepGet_finds_nested (obj : list (string * Json)) :
  (forall p ps s,
     free_of "." p = true -> Forall (fun q => free_of "." q = true) ps ->
     deepGet (nest p ps (JStr s)) (join_dots (p :: ps)) = s)
  /\ (forall key,
        free_of "." key = true ->
        deepGet obj key = match own_property key obj with
                          | Some (JStr s) => s
                          | _ => key
                          end).
Proof.
  split.
  - intros p ps s Hp Hps. unfold deepGet.
    rewrite (split_on_join p ps Hp Hps), walk_nest. reflexivity.
  - intros key Hkey. unfold deepGet.
    rewrite (split_on_free "." key Hkey). cbn [walk]. reflexivity.
Qed.

Lemma deepGet_finds_nested_witness :
  free_of "." "exam" = true
  /\ Forall (fun q => free_of "." q = true) ["section"; "title"]%string
  /\ deepGet (nest "exam" ["section"; "title"]%string (JStr "Esame"))
       "exam.section.title" = "Esame"%string.
Proof.
  assert (Forall (fun q => free_of "." q = true) ["section"; "title"]%string)
    as Hps by (repeat constructor).
  split; [reflexivity|]. split; [exact Hps|].
  exact (proj1 (deepGet_finds_nested []) "exam"%string
           ["section"; "title"]%string "Esame"%string eq_refl Hps).
Defined.

(** A dotted key whose first part leads to a sub-table is looked up in
    that sub-table; whose first part leads to anything else, or nowhere,
    comes back as it is. *)
Lemma walk_first_part (obj : list (string * Json)) (a rest : string) :
  free_of "." a = true ->
  walk (split_on "." (a ++ String "." rest)) (Some (JObj obj))
  = match own_property a obj with
    | Some (JObj sub) => walk (split_on "." rest) (Some (JObj sub))
    | _ => None
    end.
Proof.
  intros Ha. rewrite (split_on_app "." a rest Ha). cbn [walk].
  destruct (own_property a obj) as [[| |s|sub]|];
    try reflexivity;
    destruct (split_on "." rest) eqn:Hs; try reflexivity;
    exfalso; exact (split_on_nonempty "." rest Hs).
Qed.

(** X18. A dotted key is resolved part by part. When the first part
    names a sub-table, the rest of the key is looked up there: a string
    found there is the result, and otherwise the whole key is returned.
    When the first part names a string, a number, [null] or nothing, the
    whole key is returned. *)
Theorem deepGet_descends (obj : list (string * Json)) (a rest : string) :
  free_of "." a = true ->
  (forall sub, own_property a obj = Some (JObj sub) ->
     deepGet obj (a ++ String "." rest)
     = match walk (split_on "." rest) (Some (JObj sub)) with
       | Some (Some (JStr s)) => s
       | _ => (a ++ String "." rest)%string
       end
     /\ (deepGet sub rest <> rest ->
         deepGet obj (a ++ String "." rest) = deepGet sub rest))
  /\ ((forall sub, own_property a obj <> Some (JObj sub)) ->
      deepGet obj (a ++ String "." rest) = (a ++ String "." rest)%string).
Proof.
  intros Ha. split.
  - intros sub Hsub.
    assert (deepGet obj (a ++ String "." rest)
            = match walk (split_on "." rest) (Some (JObj sub)) with
              | Some (Some (JStr s)) => s
              | _ => (a ++ String "." rest)%string
              end) as E.
    { unfold deepGet. rewrite (walk_first_part obj a rest Ha), Hsub.
      reflexivity. }
    split; [exact E|]. rewrite E. unfold deepGet.
    destruct (walk (split_on "." rest) (Some (JObj sub))) as [[[| |s|o]|]|];
      try reflexivity; intros H; exfalso; apply H; reflexivity.
  - intros Hno. unfold deepGet.
    rewrite (walk_first_part obj a rest Ha).
    destruct (own_property a obj) as [[| |s|sub]|]; try reflexivity.
    exfalso. exact (Hno sub eq_refl).
Qed.

Lemma deepGet_descends_witness :
  free_of "." "exam" = true
  /\ deepGet sample_messages "exam.title" = "Esame"%string
  /\ deepGet sample_messages "back.title" = "back.title"%string.
Proof.
  split; [reflexivity|]. split.
  - destruct (deepGet_descends sample_messages "exam" "title" eq_refl)
      as [Hsub _].
    destruct (Hsub _ eq_refl) as [H _]. exact H.
  - destruct (deepGet_descends sample_messages "back" "title" eq_refl)
      as [_ Hno].
    apply Hno. intros sub. discriminate.
Defined.

(** *** Interpolation *)


Lemma match_placeholder_starts (c : ascii) (s k : string) :
  match_placeholder (String c s) = Some k -> c = "{"%char.
Proof.
  destruct c as [[] [] [] [] [] [] [] []]; cbn; try discriminate.
  reflexivity.
Qed.


(** Skipping exactly the characters of [x]. *)
Lemma replace_placeholders_skip (vars : string -> option string)
    (x r : string) :
  replace_placeholders vars (String.length x) (x ++ r)
  = replace_placeholders vars 0 r.
Proof.
  induction x as [|c x IH]; [reflexivity|].
  rewrite append_cons. cbn [String.length replace_placeholders]. exact IH.
Qed.

Lemma length_append (a b : string) :
  String.length (a ++ b) = (String.length a + String.length b)%nat.
Proof.
  induction a as [|c a IH]; [reflexivity|].
  rewrite append_cons. cbn [String.length]. rewrite IH. reflexivity.
Qed.

Lemma replace_placeholders_0 (vars : string -> option string) (c : ascii)
    (s : string) :
  replace_placeholders vars 0 (String c s)
  = match match_placeholder (String c s) with
    | Some k =>
        (replacement vars k
         ++ replace_placeholders vars (String.length k + 3) s)%string
    | None => String c (replace_placeholders vars 0 s)
    end.
Proof. reflexivity. Qed.

(** What the search does at a match. *)
Lemma replace_placeholders_match (vars : string -> option string)
    (k rest : string) :
  match_placeholder ("{{" ++ k ++ "}}" ++ rest) = Some k ->
  replace_placeholders vars 0 ("{{" ++ k ++ "}}" ++ rest)
  = (replacement vars k ++ replace_placeholders vars 0 rest)%string.
Proof.
  intros Hm.
  change ("{{" ++ k ++ "}}" ++ rest)%string
    with (String "{" (String "{" (k ++ "}}" ++ rest)))%string in *.
  rewrite replace_placeholders_0, Hm. f_equal.
  rewrite <- (replace_placeholders_skip vars (String "{" (k ++ "}}")) rest).
  f_equal.
  - cbn [String.length]. rewrite length_append. cbn. lia.
  - rewrite <- (string_append_assoc k "}}" rest). reflexivity.
Qed.




Lemma replace_placeholders_prefix (vars : string -> option string)
    (pre s : string) :
  free_of "{" pre = true ->
  replace_placeholders vars 0 (pre ++ s)
  = (pre ++ replace_placeholders vars 0 s)%string.
Proof.
  induction pre as [|c pre IH]; [reflexivity|].
  cbn [free_of]. intros H. apply andb_true_iff in H as [Hc Hpre].
  rewrite !append_cons, replace_placeholders_0.
  destruct (match_placeholder (String c (pre ++ s))) as [k|] eqn:Hm.
  - apply match_placeholder_starts in Hm. subst c. discriminate.
  - rewrite (IH Hpre). reflexivity.
Qed.

Lemma span_word_name (k rest : string) :
  all_word k = true ->
  span_word (k ++ "}}" ++ rest) = (k, ("}}" ++ rest)%string).
Proof.
  induction k as [|c k IH]; [reflexivity|].
  cbn [all_word]. intros H. apply andb_true_iff in H as [Hc Hk].
  rewrite append_cons. cbn [span_word]. rewrite Hc, (IH Hk). reflexivity.
Qed.

(** X20. A placeholder with a value is replaced by the value, as it is:
    for a text without ["{"] in front, a name of one or more word
    characters and anything behind, the result is the text in front, the
    value, and the interpolation of what is behind. The value itself is
    not searched for placeholders. *)
Theorem interpolate_replaces (vars : string -> option string)
    (pre k v post : string) :
  free_of "{" pre = true -> all_word k = true -> k <> EmptyString ->
  vars k = Some v ->
  interpolate (pre ++ "{{" ++ k ++ "}}" ++ post) (Some vars)
  = (pre ++ v ++ interpolate post (Some vars))%string.
Proof.
  intros Hpre Hk Hne Hv. cbn [interpolate].
  rewrite (replace_placeholders_prefix vars pre _ Hpre). f_equal.
  rewrite replace_placeholders_match.
  - unfold replacement. rewrite Hv. reflexivity.
  - change ("{{" ++ k ++ "}}" ++ post)%string
      with (String "{" (String "{" (k ++ "}}" ++ post)))%string.
    cbn [match_placeholder]. rewrite (span_word_name k post Hk).
    destruct k; [contradiction|reflexivity].
Qed.

Lemma interpolate_replaces_witness :
  free_of "{" "Restano " = true /\ all_word "n" = true
  /\ "n"%string <> EmptyString
  /\ interpolate "Restano {{n}} domande"
       (Some (fun k => if String.eqb k "n" then Some "{{n}}"%string else None))
     = "Restano {{n}} domande"%string.
Proof.
  assert ("n"%string <> EmptyString) as Hne by discriminate.
  split; [reflexivity|]. split; [reflexivity|]. split; [exact Hne|].
  exact (interpolate_replaces
           (fun k => if String.eqb k "n" then Some "{{n}}"%string else None)
           "Restano " "n" "{{n}}" " domande" eq_refl eq_refl Hne eq_refl).
Defined.

(** *** Translation *)

Lemma append_empty_r (s : string) : (s ++ EmptyString)%string = s.
Proof.
  induction s as [|c s IH]; [reflexivity|].
  rewrite append_cons, IH. reflexivity.
Qed.

(** X21. A key that the table of the current language does not resolve
    to a string is shown as it is: for a key without a dot and without
    ["{"], with nothing or a non-string stored under it, [t] returns the
    key, whatever values are passed. *)
Theorem t_shows_missing_key (messages : list (string * Json)) (key : string)
    (vars : option (string -> option string)) :
  free_of "." key = true -> free_of "{" key = true ->
  (forall s, own_property key messages <> Some (JStr s)) ->
  t messages key vars = key.
Proof.
  intros Hdot Hbrace Hmiss. unfold t, deepGet.
  rewrite (split_on_free "." key Hdot). cbn [walk].
  assert (match own_property key messages with
          | Some (JStr s) => s
          | _ => key
          end = key) as ->.
  { destruct (own_property key messages) as [[| |s|o]|]; try reflexivity.
    exfalso. exact (Hmiss s eq_refl). }
  destruct vars as [lookup|]; [|reflexivity]. cbn [interpolate].
  rewrite <- (append_empty_r key) at 1.
  rewrite (replace_placeholders_prefix lookup key EmptyString Hbrace).
  apply append_empty_r.
Qed.

Lemma t_shows_missing_key_witness :
  free_of "." "cancel" = true /\ free_of "{" "cancel" = true
  /\ t sample_messages "cancel" (Some (fun _ => Some "x"%string))
     = "cancel"%string.
Proof.
  split; [reflexivity|]. split; [reflexivity|].
  apply t_shows_missing_key; [reflexivity|reflexivity|].
  intros s. discriminate.
Defined.

(** *** The language of the browser *)

(** The first part of a split string is the string itself or is followed
    in it by the separator. *)
Lemma split_on_first (sep : ascii) (s p : string) (ps : list string) :
  split_on sep s = p :: ps ->
  s = p \/ exists rest, s = (p ++ String sep rest)%string.
Proof.
  revert p ps. induction s as [|c s IH]; intros p ps; cbn [split_on].
  - intros H. injection H as <- _. left. reflexivity.
  - destruct (Ascii.eqb_spec c sep) as [->|Hc].
    + intros H. injection H as <- _. right. exists s. reflexivity.
    + destruct (split_on sep s) as [|q qs] eqn:Hs.
      * exfalso. exact (split_on_nonempty sep s Hs).
      * intros H. injection H as <- _.
        destruct (IH q qs eq_refl) as [->|[rest ->]].
        -- left. reflexivity.
        -- right. exists rest. reflexivity.
Qed.

Lemma lower_char_a (c : ascii) :
  lower_char c = "a"%char <-> c = "a"%char \/ c = "A"%char.
Proof.
  split.
  - destruct c as [[] [] [] [] [] [] [] []]; vm_compute; intros H;
      try discriminate H; auto.
  - intros [->| ->]; reflexivity.
Qed.

Lemma lower_char_r (c : ascii) :
  lower_char c = "r"%char <-> c = "r"%char \/ c = "R"%char.
Proof.
  split.
  - destruct c as [[] [] [] [] [] [] [] []]; vm_compute; intros H;
      try discriminate H; auto.
  - intros [->| ->]; reflexivity.
Qed.

(** X22. The browser language counts as Arabic exactly when the tag is
    ["ar"], in upper or lower case, alone or followed by a hyphen and
    anything (a region, a script); every other tag, the empty tag and a
    missing tag give Italian. *)
Theorem detectBrowserLanguage_arabic (tag : string) :
  (detectBrowserLanguage (Some tag) = ar <->
   exists a r,
     (a = "a"%char \/ a = "A"%char) /\ (r = "r"%char \/ r = "R"%char)
     /\ (tag = String a (String r EmptyString)
         \/ exists rest, tag = String a (String r (String "-" rest))))
  /\ detectBrowserLanguage None = it.
Proof.
  split; [|reflexivity]. unfold detectBrowserLanguage. split.
  - destruct (split_on "-" tag) as [|first ps] eqn:Hs; [discriminate|].
    destruct (String.eqb_spec (toLowerCase first) "ar") as [Hlow|];
      [|discriminate].
    intros _.
    destruct first as [|a [|r [|c first]]]; try discriminate Hlow.
    cbn [toLowerCase] in Hlow. injection Hlow as Ha Hr.
    apply lower_char_a in Ha. apply lower_char_r in Hr.
    exists a, r. split; [exact Ha|]. split; [exact Hr|].
    destruct (split_on_first "-" tag _ ps Hs) as [->|[rest ->]].
    + left. reflexivity.
    + right. exists rest. reflexivity.
  - intros (a & r & Ha & Hr & Htag).
    assert (free_of "-" (String a (String r EmptyString)) = true) as Hfree
      by (destruct Ha as [->| ->], Hr as [->| ->]; reflexivity).
    assert (toLowerCase (String a (String r EmptyString)) = "ar"%string)
      as Hlow
      by (destruct Ha as [->| ->], Hr as [->| ->]; reflexivity).
    destruct Htag as [->|[rest ->]].
    + rewrite (split_on_free "-" _ Hfree), Hlow. reflexivity.
    + change (String a (String r (String "-" rest)))
        with (String a (String r EmptyString) ++ String "-" rest)%string.
      rewrite (split_on_app "-" _ rest Hfree), Hlow. reflexivity.
Qed.

Lemma detectBrowserLanguage_arabic_witness :
  detectBrowserLanguage (Some "AR-EG"%string) = ar
  /\ detectBrowserLanguage (Some "ara"%string) = it.
Proof.
  split.
  - apply (proj1 (detectBrowserLanguage_arabic "AR-EG")).
    exists "A"%char, "R"%char. split; [right; reflexivity|].
    split; [right; reflexivity|]. right. exists "EG"%string. reflexivity.
  - destruct (detectBrowserLanguage (Some "ara"%string)) eqn:H;
      [|reflexivity].
    apply (proj1 (detectBrowserLanguage_arabic "ara")) in H.
    destruct H as (a & r & _ & _ & [H|[rest H]]); discriminate H.
Defined.

End LanguageContextSpec.

(* ===================================================================== *)
(** ** Properties of the exam simulator *)
(* ===================================================================== *)

Module ExamSimulatorSpec.
Import ExamSimulator.

(** *** Counting over indexed maps *)

Section Counting.
Context {A B C : Type}.

(** Two [map((x, i) => ...)] passes over the same array select equally
    many rows when their predicates agree row by row. *)
Lemma filter_imap_length (p : B -> bool) (q : C -> bool)
    (f : nat -> A -> B) (g : nat -> A -> C) (l : list A) :
  (forall i x, p (f i x) = q (g i x)) ->
  length (List.filter p (imap f l)) = length (List.filter q (imap g l)).
Proof.
  revert f g. induction l as [|x l IH]; intros f g Hpq; [reflexivity|].
  cbn [imap List.filter]. rewrite Hpq.
  specialize (IH (f ∘ S) (g ∘ S) (fun i y => Hpq (S i) y)).
  destruct (q (g 0%nat x)); cbn [length]; rewrite IH; reflexivity.
Qed.

(** Rows selected by [p] and rows selected by its negation add up to the
    whole array. *)
Lemma filter_split_length (p : B -> bool) (l : list B) :
  (length (List.filter p l) + length (List.filter (fun x => negb (p x)) l)
   = length l)%nat.
Proof.
  induction l as [|x l IH]; [reflexivity|].
  cbn [List.filter]. destruct (p x); cbn [negb length]; lia.
Qed.

Lemma filter_length_bound (p : B -> bool) (l : list B) :
  (length (List.filter p l) <= length l)%nat.
Proof. pose proof (filter_split_length p l). lia. Qed.

End Counting.

(** [===] against a boolean holds exactly when the record holds that
    boolean. *)
Lemma strict_eq_true (v : option AnswerValue) (b : bool) :
  strict_eq v b = bool_decide (v = Some (VBool b)).
Proof.
  destruct v as [[a|]|]; cbn; try (symmetry; apply bool_decide_eq_false; congruence).
  destruct a, b; cbn; first [ symmetry; apply bool_decide_eq_true; reflexivity
                            | symmetry; apply bool_decide_eq_false; congruence ].
Qed.

Lemma strict_eq_outcome (st : State) (i : nat) (q : Question) :
  strict_eq (answers st !! Z.of_nat i) (isTrue q)
  = bool_decide (outcome st i q = AnsweredCorrect).
Proof.
  unfold outcome, outcome_of. generalize (isTrue q). intros b.
  destruct (answers st !! Z.of_nat i) as [v|]; cbn; [|reflexivity].
  destruct (decide (v = VBool b)) as [->|Hne].
  - destruct b; reflexivity.
  - destruct v as [a|]; cbn; [|reflexivity].
    destruct a, b; cbn; first [reflexivity | done].
Qed.

Lemma length_answeredList (st : State) :
  length (answeredList st) = length (examQuestions st).
Proof. apply length_imap. Qed.

Lemma correctCount_positions (st : State) :
  correctCount st = positions AnsweredCorrect st.
Proof.
  unfold correctCount, positions, answeredList, outcomes. f_equal.
  apply filter_imap_length. intros i q. cbn. apply strict_eq_outcome.
Qed.

Lemma result_correctCount_positions (st : State) :
  result_correctCount st = positions AnsweredCorrect st.
Proof.
  unfold result_correctCount, positions, results, outcomes. f_equal.
  apply filter_imap_length. intros i q. cbn. apply strict_eq_outcome.
Qed.

(** Every position has exactly one outcome. *)
Lemma outcome_partition (l : list Outcome) :
  (length (List.filter (fun o => bool_decide (o = AnsweredCorrect)) l)
   + length (List.filter (fun o => bool_decide (o = AnsweredWrong)) l)
   + length (List.filter (fun o => bool_decide (o = Unanswered)) l)
   = length l)%nat.
Proof.
  induction l as [|o l IH]; [reflexivity|].
  destruct o; simpl; lia.
Qed.

Lemma positions_total (st : State) :
  positions AnsweredCorrect st + positions AnsweredWrong st
  + positions Unanswered st = Z.of_nat (length (examQuestions st)).
Proof.
  unfold positions. pose proof (outcome_partition (outcomes st)) as H.
  unfold outcomes in H at 4. rewrite length_imap in H. lia.
Qed.

Lemma correctCount_bounds (st : State) :
  0 <= correctCount st <= Z.of_nat (length (examQuestions st)).
Proof.
  unfold correctCount.
  pose proof (filter_length_bound correct (answeredList st)) as H.
  rewrite length_answeredList in H. lia.
Qed.

Lemma errors_positions (st : State) :
  errors st = positions AnsweredWrong st + positions Unanswered st.
Proof.
  pose proof (positions_total st) as Htot.
  pose proof (result_correctCount_positions st) as Hc.
  pose proof (filter_split_length row_correct (results st)) as Hs.
  unfold errors, result_correctCount in *.
  unfold results in Hs at 3. rewrite length_imap in Hs. lia.
Qed.

(** *** The percentage in double arithmetic *)

Lemma percentage_table_30 : percentage_table EXAM_QUESTIONS = true.
Proof. vm_compute. reflexivity. Qed.

Lemma percentage_exact (c t : Z) :
  1 <= t <= Z.of_nat EXAM_QUESTIONS -> 0 <= c <= t ->
  percentage c t = Some (round_ratio (100 * c) t).
Proof.
  intros Ht Hc.
  pose proof percentage_table_30 as Htab. unfold percentage_table in Htab.
  rewrite forallb_forall in Htab.
  assert (In (Z.to_nat t) (seq 1 EXAM_QUESTIONS)) as Hin_t
    by (apply in_seq; unfold EXAM_QUESTIONS in *; lia).
  specialize (Htab _ Hin_t). rewrite forallb_forall in Htab.
  assert (In (Z.to_nat c) (seq 0 (S (Z.to_nat t)))) as Hin_c
    by (apply in_seq; lia).
  specialize (Htab _ Hin_c). rewrite !Z2Nat.id in Htab by lia.
  destruct (percentage c t) as [z|]; [|discriminate Htab].
  apply Z.eqb_eq in Htab. congruence.
Qed.

(** Beyond the session size the double computation can leave the exact
    rounding: 23 of 40 is 57.5 exactly, and comes out as 57. *)
Example percentage_23_of_40 :
  percentage 23 40 = Some 57 /\ round_ratio (100 * 23) 40 = 58.
Proof. split; vm_compute; reflexivity. Qed.

(** With no question at all the quotient is [0 / 0]. *)
Example percentage_0_of_0 : percentage 0 0 = None.
Proof. vm_compute. reflexivity. Qed.

(** *** Scoring *)

Lemma quizResult_scored (now : Z) (st : State) :
  (length (examQuestions st) <= EXAM_QUESTIONS)%nat ->
  record_scored (quizResult now st).
Proof.
  intros Hlen Hpos. cbn [quizResult totalQuestions correctAnswers score] in *.
  pose proof (correctCount_bounds st) as Hb.
  apply percentage_exact; lia.
Qed.

(** *** Session size along a run *)

Lemma length_shuffled_bound (sort : Sorter) (rnd : list bool)
    (qs : list Question) :
  (length (shuffled sort rnd qs) <= EXAM_QUESTIONS)%nat.
Proof. unfold shuffled. rewrite length_take. lia. Qed.

Lemma commit_size_inv (after : State) (w : World) :
  size_inv w ->
  (length (examQuestions after) <= EXAM_QUESTIONS)%nat ->
  size_inv (commit after w).
Proof.
  unfold size_inv, commit, timer_effect. cbn [ui interval].
  intros [_ Hc] Hafter. split; [exact Hafter|].
  destruct (Phase_eqb (phase after) (phase (ui w))
            && (startTime after =? startTime (ui w))); [exact Hc|].
  destruct (phase after); try exact I. exact Hafter.
Qed.

Lemma step_size_inv (sort : Sorter) (ev : Event) (w w' : World) :
  size_inv w -> step sort ev w = Some w' -> size_inv w'.
Proof.
  intros Hinv Hstep. pose proof (proj1 Hinv) as Hui.
  destruct ev; cbn [step] in Hstep;
    [ | destruct (view (ui w)); try discriminate ..
      | | | destruct (view (ui w)); try discriminate
      | destruct (view (ui w)); try discriminate ];
    try (injection Hstep as <-; apply commit_size_inv;
         [exact Hinv|first [exact Hui|apply length_shuffled_bound]]).
  - injection Hstep as <-. apply commit_size_inv; [exact Hinv|].
    unfold sampling_effect. cbn [setQuestions questions examQuestions].
    destruct ((0 <? length qs)%nat && (length (examQuestions (ui w)) =? 0)%nat);
      cbn [setExamQuestions examQuestions];
      [apply length_shuffled_bound|exact Hui].
  - destruct (showGrid (ui w) && (i <? length (examQuestions (ui w)))%nat);
      try discriminate.
    injection Hstep as <-. apply commit_size_inv; [exact Hinv|exact Hui].
  - injection Hstep as <-. apply commit_size_inv; [exact Hinv|].
    unfold nextQuestion.
    destruct (currentIndex (ui w) <? Z.of_nat (length (examQuestions (ui w))) - 1);
      exact Hui.
  - injection Hstep as <-. apply commit_size_inv; [exact Hinv|].
    unfold prevQuestion. destruct (0 <? currentIndex (ui w)); exact Hui.
  - injection Hstep as <-. exact Hinv.
  - destruct (interval w) as [c|] eqn:Hc; try discriminate.
    injection Hstep as <-.
    assert (size_inv (commit (setElapsed ((now - startTime c) / 1000) (ui w)) w))
      as H by (apply commit_size_inv; [exact Hinv|exact Hui]).
    destruct (EXAM_TIME <=? (now - startTime c) / 1000); exact H.
  - destruct (awaiting w); try discriminate. injection Hstep as <-.
    apply (commit_size_inv _ {| ui := ui w; interval := interval w;
                                awaiting := n; persisted := persisted w |});
      [exact Hinv|]. destruct o; exact Hui.
Qed.

(** Every record handed to [saveQuizResult] in a turn of the event loop
    carries the exactly rounded percentage. *)
Lemma step_records_scored (sort : Sorter) (ev : Event) (w w' : World) :
  size_inv w -> Forall record_scored (persisted w) ->
  step sort ev w = Some w' -> Forall record_scored (persisted w').
Proof.
  intros Hinv Hrec Hstep. pose proof (proj1 Hinv) as Hui.
  destruct ev; cbn [step] in Hstep;
    [ | destruct (view (ui w)); try discriminate ..
      | | | destruct (view (ui w)); try discriminate
      | destruct (view (ui w)); try discriminate ];
    try (injection Hstep as <-; exact Hrec).
  - destruct (showGrid (ui w) && (i <? length (examQuestions (ui w)))%nat);
      try discriminate.
    injection Hstep as <-. exact Hrec.
  - injection Hstep as <-. cbn [call_finishExam persisted].
    apply Forall_app. split; [exact Hrec|].
    constructor; [|constructor]. apply quizResult_scored, Hui.
  - destruct (interval w) as [c|] eqn:Hc; try discriminate.
    injection Hstep as <-.
    destruct (EXAM_TIME <=? (now - startTime c) / 1000); [|exact Hrec].
    cbn [call_finishExam commit persisted].
    apply Forall_app. split; [exact Hrec|].
    constructor; [|constructor]. apply quizResult_scored.
    destruct Hinv as [_ Hcl]. rewrite Hc in Hcl. exact Hcl.
  - destruct (awaiting w); try discriminate.
    injection Hstep as <-. exact Hrec.
Qed.

(** In every run from the mounted component, sessions have at most
    [EXAM_QUESTIONS] questions and every persisted record over at least
    one question carries the exactly rounded percentage. *)
Lemma run_records_scored (sort : Sorter) (evs : list Event) (w : World) :
  run sort evs mounted = Some w ->
  size_inv w /\ Forall record_scored (persisted w).
Proof.
  assert (forall w0, size_inv w0 -> Forall record_scored (persisted w0) ->
            run sort evs w0 = Some w ->
            size_inv w /\ Forall record_scored (persisted w)) as Hgen.
  { induction evs as [|ev evs IH]; intros w0 Hs Hr Hrun; cbn in Hrun.
    - injection Hrun as <-. split; assumption.
    - destruct (step sort ev w0) as [w1|] eqn:Hstep; [|discriminate].
      apply (IH w1);
        [exact (step_size_inv sort ev w0 w1 Hs Hstep)
        |exact (step_records_scored sort ev w0 w1 Hs Hr Hstep)
        |exact Hrun]. }
  apply Hgen.
  - split; [cbn; unfold EXAM_QUESTIONS; lia|exact I].
  - constructor.
Qed.

(** *** Scoring of a session *)

(** C1. For a session of T questions, 1 <= T <= 30, and any answer map,
    the record built by [finishExam] has: correctAnswers = the number of
    positions whose recorded answer equals the question's flag (a position
    with no recorded answer never counts); score = round(100 *
    correctAnswers / T); wrongAnswers = T - correctAnswers, which is the
    number of positions answered wrongly plus the number left unanswered.
    And every session that a run of the component reaches has at most 30
    questions. *)
Theorem finishExam_scoring :
  (forall (now : Z) (st : State),
     (1 <= length (examQuestions st) <= EXAM_QUESTIONS)%nat ->
     let T := Z.of_nat (length (examQuestions st)) in
     let r := quizResult now st in
     totalQuestions r = T
     /\ correctAnswers r = positions AnsweredCorrect st
     /\ score r = Some (round_ratio (100 * correctAnswers r) T)
     /\ wrongAnswers r = T - correctAnswers r
     /\ wrongAnswers r = positions AnsweredWrong st + positions Unanswered st)
  /\ (forall (sort : Sorter) (evs : list Event) (w : World),
        run sort evs mounted = Some w ->
        (length (examQuestions (ui w)) <= EXAM_QUESTIONS)%nat).
Proof.
  split.
  - intros now st HT T r.
    pose proof (positions_total st) as Htot.
    pose proof (correctCount_positions st) as Hc.
    pose proof (quizResult_scored now st (proj2 HT)) as Hs.
    unfold record_scored in Hs. subst T r.
    cbn [quizResult totalQuestions correctAnswers score wrongAnswers] in *.
    split; [reflexivity|]. split; [exact Hc|]. split; [apply Hs; lia|].
    split; lia.
  - intros sort evs w Hrun.
    exact (proj1 (proj1 (run_records_scored sort evs w Hrun))).
Qed.

(** 26 of 30 answered, all of them right, 4 left open: 4 errors. *)
Lemma finishExam_scoring_witness :
  (1 <= length (examQuestions session_26_of_30) <= EXAM_QUESTIONS)%nat
  /\ correctAnswers (quizResult 1000 session_26_of_30) = 26
  /\ wrongAnswers (quizResult 1000 session_26_of_30) = 4
  /\ score (quizResult 1000 session_26_of_30) = Some 87.
Proof.
  assert (1 <= length (examQuestions session_26_of_30) <= EXAM_QUESTIONS)%nat
    as Hlen by (vm_compute; lia).
  destruct (proj1 finishExam_scoring 1000 session_26_of_30 Hlen)
    as (_ & Hc & Hs & _ & Hw).
  assert (positions AnsweredCorrect session_26_of_30 = 26) as H26
    by (vm_compute; reflexivity).
  assert (positions AnsweredWrong session_26_of_30 = 0) as H0
    by (vm_compute; reflexivity).
  assert (positions Unanswered session_26_of_30 = 4) as H4
    by (vm_compute; reflexivity).
  split; [exact Hlen|]. split; [|split].
  - rewrite Hc. exact H26.
  - rewrite Hw, H0, H4. reflexivity.
  - rewrite Hs, Hc, H26. vm_compute. reflexivity.
Defined.

(** 27 right answers out of 30 score 90. *)
Example finishExam_27_of_30 :
  correctAnswers (quizResult 1000 session_27_of_30) = 27
  /\ wrongAnswers (quizResult 1000 session_27_of_30) = 3
  /\ score (quizResult 1000 session_27_of_30) = Some 90.
Proof. vm_compute. split; [|split]; reflexivity. Qed.

(** *** The verdict *)

Lemma passed_iff_errors (st : State) : passed st = true <-> errors st <= 3.
Proof. unfold passed, MAX_ERRORS. apply Z.leb_le. Qed.

(** C2. The verdict of the result screen is "passed" exactly when the
    number of questions answered wrongly or left unanswered is at most 3.
    The percentage does not enter: a session with 3 errors passes and one
    with 4 errors fails, and a session can pass with a lower percentage
    than one that fails. *)
Theorem passed_iff_at_most_three_errors :
  (forall st, errors st = positions AnsweredWrong st + positions Unanswered st)
  /\ (forall st, passed st = true <->
        positions AnsweredWrong st + positions Unanswered st <= 3)
  /\ (errors (setPhase Result session_27_of_30) = 3
      /\ passed (setPhase Result session_27_of_30) = true)
  /\ (errors (setPhase Result session_26_of_30) = 4
      /\ passed (setPhase Result session_26_of_30) = false)
  /\ (result_score (setPhase Result (session_1_open true)) = Some 0
      /\ passed (setPhase Result (session_1_open true)) = true
      /\ result_score (setPhase Result session_26_of_30) = Some 87).
Proof.
  split; [exact errors_positions|].
  split; [intros st; rewrite <- errors_positions; apply passed_iff_errors|].
  vm_compute. repeat split; reflexivity.
Qed.

(** Three open questions out of thirty: passed, through the equivalence. *)
Lemma passed_iff_at_most_three_errors_witness :
  positions AnsweredWrong session_27_of_30
    + positions Unanswered session_27_of_30 <= 3
  /\ passed session_27_of_30 = true.
Proof.
  assert (positions AnsweredWrong session_27_of_30
            + positions Unanswered session_27_of_30 <= 3) as H
    by (vm_compute; discriminate).
  split; [exact H|].
  exact (proj2 (proj1 (proj2 passed_iff_at_most_three_errors)
                  session_27_of_30) H).
Defined.

(** *** The persisted answer list *)

Lemma answeredList_lookup (st : State) (i : nat) (q : Question) :
  examQuestions st !! i = Some q ->
  answeredList st !! i =
    Some {| questionId := id q;
            userAnswer := nullish (answers st !! Z.of_nat i) false;
            correct := strict_eq (answers st !! Z.of_nat i) (isTrue q) |}.
Proof.
  intros H. unfold answeredList. rewrite list_lookup_imap, H. reflexivity.
Qed.

(** C10. Every entry of the persisted answer list carries a boolean
    [userAnswer]: the recorded boolean, or [false] when nothing is
    recorded; its [correct] field tells whether the record holds the
    question's flag. So an unanswered question is persisted with
    userAnswer = false and correct = false; when its flag is false the
    entry has userAnswer equal to the flag and still correct = false; and
    when its flag is true the whole persisted record is the one of the
    session in which the user answered "false". *)
Theorem persisted_entry_loses_unanswered :
  (forall now st i q, examQuestions st !! i = Some q ->
     answeredEntries (quizResult now st) !! i =
       Some {| questionId := id q;
               userAnswer := match answers st !! Z.of_nat i with
                             | Some (VBool b) => b
                             | _ => false
                             end;
               correct := bool_decide
                            (answers st !! Z.of_nat i = Some (VBool (isTrue q))) |})
  /\ (forall now st i q, examQuestions st !! i = Some q ->
        answers st !! Z.of_nat i = None ->
        exists e, answeredEntries (quizResult now st) !! i = Some e
                  /\ userAnswer e = false /\ correct e = false)
  /\ (exists now st q e,
        examQuestions st !! 0%nat = Some q /\ isTrue q = false
        /\ answers st !! 0 = None
        /\ answeredEntries (quizResult now st) !! 0%nat = Some e
        /\ userAnswer e = isTrue q /\ correct e = false)
  /\ (exists now st1 st2,
        examQuestions st1 = examQuestions st2
        /\ answers st1 !! 0 = None
        /\ answers st2 !! 0 = Some (VBool false)
        /\ quizResult now st1 = quizResult now st2).
Proof.
  split; [|split; [|split]].
  - intros now st i q H. cbn [quizResult answeredEntries].
    rewrite (answeredList_lookup st i q H), strict_eq_true. reflexivity.
  - intros now st i q H Hnone. eexists. split.
    + cbn [quizResult answeredEntries]. apply (answeredList_lookup st i q H).
    + rewrite Hnone. split; reflexivity.
  - exists 1000, (session_1_open false), (mkQuestion "q" false).
    eexists. repeat split.
  - exists 1000, (session_1_open true), (session_1_false true).
    split; [reflexivity|]. split; [reflexivity|]. split; [reflexivity|].
    vm_compute. reflexivity.
Qed.

(** The unanswered question with flag [false], through the general
    statement. *)
Lemma persisted_entry_loses_unanswered_witness :
  examQuestions (session_1_open false) !! 0%nat = Some (mkQuestion "q" false)
  /\ answers (session_1_open false) !! 0 = None
  /\ exists e,
       answeredEntries (quizResult 1000 (session_1_open false)) !! 0%nat = Some e
       /\ userAnswer e = false /\ correct e = false.
Proof.
  split; [reflexivity|]. split; [reflexivity|].
  apply (proj1 (proj2 persisted_entry_loses_unanswered)
           1000 (session_1_open false) 0%nat (mkQuestion "q" false));
    reflexivity.
Defined.

(** *** Navigation *)

(** C8 (as stated) fails: on a session of three questions, going to
    index 5 leaves the cursor at 5, not at the clamped index 2, and the
    component then renders nothing. *)
Lemma goToQuestion_out_of_range :
  currentIndex (goToQuestion 5 session_pool3) = 5
  /\ clamp 5 (length (examQuestions session_pool3)) = 2
  /\ currentIndex (goToQuestion 5 session_pool3)
     <> clamp 5 (length (examQuestions session_pool3))
  /\ view (goToQuestion 5 session_pool3) = Blank.
Proof. vm_compute. repeat split; try reflexivity. discriminate. Qed.

Lemma clamp_in_range (idx : Z) (len : nat) :
  0 <= idx < Z.of_nat len -> clamp idx len = idx.
Proof. unfold clamp. lia. Qed.

(** C8 (amended). [goToQuestion idx] sets the cursor to [idx] itself,
    whatever [idx] is, and changes neither the questions, the answers, the
    phase nor the timer. When [idx] lies in [0, length-1] this is the
    clamped index, and the question grid, the only caller, passes such
    indices only. [nextQuestion] and [prevQuestion] keep a cursor that is
    in range in range, and touch nothing else either. *)
Theorem goToQuestion_sets_cursor (idx : Z) (st : State) :
  (currentIndex (goToQuestion idx st) = idx
   /\ examQuestions (goToQuestion idx st) = examQuestions st
   /\ answers (goToQuestion idx st) = answers st
   /\ phase (goToQuestion idx st) = phase st
   /\ startTime (goToQuestion idx st) = startTime st
   /\ elapsed (goToQuestion idx st) = elapsed st)
  /\ (0 <= idx < Z.of_nat (length (examQuestions st)) ->
      currentIndex (goToQuestion idx st)
      = clamp idx (length (examQuestions st)))
  /\ (forall sort i w w', step sort (ClickGrid i) w = Some w' ->
      ui w' = goToQuestion (Z.of_nat i) (ui w)
      /\ currentIndex (ui w')
         = clamp (Z.of_nat i) (length (examQuestions (ui w))))
  /\ (0 <= currentIndex st < Z.of_nat (length (examQuestions st)) ->
      (0 <= currentIndex (nextQuestion st) < Z.of_nat (length (examQuestions st))
       /\ answers (nextQuestion st) = answers st
       /\ startTime (nextQuestion st) = startTime st)
      /\ (0 <= currentIndex (prevQuestion st) < Z.of_nat (length (examQuestions st))
          /\ answers (prevQuestion st) = answers st
          /\ startTime (prevQuestion st) = startTime st)).
Proof.
  split; [repeat split|]. split; [|split].
  - intros Hin. cbn. symmetry. apply clamp_in_range. exact Hin.
  - intros sort i w w' Hstep. cbn [step] in Hstep.
    destruct (view (ui w)); try discriminate.
    destruct (showGrid (ui w)); cbn [andb] in Hstep; try discriminate.
    destruct (i <? length (examQuestions (ui w)))%nat eqn:Hlt;
      try discriminate.
    apply Nat.ltb_lt in Hlt. injection Hstep as <-. cbn.
    split; [reflexivity|]. symmetry. apply clamp_in_range. lia.
  - intros Hin. unfold nextQuestion, prevQuestion.
    destruct (currentIndex st <? Z.of_nat (length (examQuestions st)) - 1)
      eqn:Hn;
    destruct (0 <? currentIndex st) eqn:Hp; cbn;
    rewrite ?Z.ltb_lt in *; repeat split; lia.
Qed.

Lemma goToQuestion_sets_cursor_witness :
  0 <= 2 < Z.of_nat (length (examQuestions session_pool3))
  /\ currentIndex (goToQuestion 2 session_pool3)
     = clamp 2 (length (examQuestions session_pool3)).
Proof.
  assert (0 <= 2 < Z.of_nat (length (examQuestions session_pool3))) as H
    by (vm_compute; split; [discriminate|reflexivity]).
  split; [exact H|].
  exact (proj1 (proj2 (goToQuestion_sets_cursor 2 session_pool3)) H).
Defined.

(** *** What the review screen counts *)

Lemma filter_length_Permutation {A} (p : A -> bool) (l l' : list A) :
  l ≡ₚ l' -> length (List.filter p l) = length (List.filter p l').
Proof.
  induction 1 as [|x l l' _ IH|x y l|l l' l'' _ IH1 _ IH2]; cbn [List.filter].
  - reflexivity.
  - destruct (p x); cbn [length]; rewrite IH; reflexivity.
  - destruct (p x), (p y); reflexivity.
  - congruence.
Qed.

(** The test of the review screen on one entry of the answers record. *)
Lemma review_entry_counts (qs : list Question) (k : Z) (v : AnswerValue) :
  match at_index qs k with
  | Some q => negb (strict_eq (Some v) (isTrue q))
  | None => false
  end
  = match at_index qs k with
    | Some q => bool_decide (v <> VBool (isTrue q))
    | None => false
    end.
Proof.
  destruct (at_index qs k) as [q|]; [|reflexivity].
  rewrite strict_eq_true.
  destruct (decide (v = VBool (isTrue q))) as [->|Hne].
  - rewrite bool_decide_eq_true_2 by reflexivity.
    rewrite bool_decide_eq_false_2 by (intros H; apply H; reflexivity).
    reflexivity.
  - rewrite bool_decide_eq_false_2 by congruence.
    rewrite bool_decide_eq_true_2 by exact Hne. reflexivity.
Qed.

Lemma at_index_cons {A} (x : A) (l : list A) (k : Z) :
  at_index (x :: l) k = if k =? 0 then Some x else at_index l (k - 1).
Proof.
  unfold at_index. destruct (k =? 0) eqn:Hk.
  - apply Z.eqb_eq in Hk. subst k. reflexivity.
  - apply Z.eqb_neq in Hk. destruct (k <? 0) eqn:Hneg.
    + assert ((k - 1 <? 0) = true) as -> by (apply Z.ltb_lt; lia). reflexivity.
    + apply Z.ltb_ge in Hneg.
      assert ((k - 1 <? 0) = false) as -> by (apply Z.ltb_ge; lia).
      replace (Z.to_nat k) with (S (Z.to_nat (k - 1))) by lia. reflexivity.
Qed.

Lemma outcome_of_insert_ne (m : gmap Z AnswerValue) (k : Z)
    (v : AnswerValue) (n : nat) (q : Question) :
  k <> Z.of_nat n -> outcome_of (<[k:=v]> m) n q = outcome_of m n q.
Proof. intros Hne. unfold outcome_of. rewrite lookup_insert_ne; done. Qed.

Lemma outcome_of_insert_eq (m : gmap Z AnswerValue) (v : AnswerValue)
    (n : nat) (q : Question) :
  outcome_of (<[Z.of_nat n:=v]> m) n q
  = if bool_decide (v <> VBool (isTrue q)) then AnsweredWrong
    else AnsweredCorrect.
Proof.
  unfold outcome_of. rewrite lookup_insert_eq.
  destruct (decide (v = VBool (isTrue q))) as [Heq|Hne].
  - rewrite bool_decide_eq_false_2; [reflexivity|]. intros H. apply H, Heq.
  - rewrite bool_decide_eq_true_2; [reflexivity|exact Hne].
Qed.

Lemma outcome_of_fresh (m : gmap Z AnswerValue) (n : nat) (q : Question) :
  m !! Z.of_nat n = None -> outcome_of m n q = Unanswered.
Proof. intros H. unfold outcome_of. rewrite H. reflexivity. Qed.

Lemma imap_outcome_shift (m : gmap Z AnswerValue) (n : nat)
    (qs : list Question) :
  imap ((fun i => outcome_of m (n + i)) ∘ S) qs
  = imap (fun i => outcome_of m (S n + i)) qs.
Proof.
  apply imap_ext. intros i x _. cbn. f_equal. lia.
Qed.

(** Recording an answer under a fresh key [k] adds one wrongly answered
    position when [k] names a question whose flag differs from the
    answer, and none otherwise. Positions are counted from [n]. *)
Lemma wrong_positions_insert (m : gmap Z AnswerValue) (k : Z)
    (v : AnswerValue) (qs : list Question) (n : nat) :
  m !! k = None ->
  length (List.filter (fun o => bool_decide (o = AnsweredWrong))
            (imap (fun i => outcome_of (<[k:=v]> m) (n + i)) qs))
  = (length (List.filter (fun o => bool_decide (o = AnsweredWrong))
               (imap (fun i => outcome_of m (n + i)) qs))
     + match at_index qs (k - Z.of_nat n) with
       | Some q => if bool_decide (v <> VBool (isTrue q)) then 1 else 0
       | None => 0
       end)%nat.
Proof.
  intros Hfresh. revert n. induction qs as [|q qs IH]; intros n.
  - cbn. unfold at_index. destruct (k - Z.of_nat n <? 0); [reflexivity|].
    rewrite lookup_nil. reflexivity.
  - cbn [imap]. rewrite !imap_outcome_shift, Nat.add_0_r.
    cbn [List.filter]. specialize (IH (S n)).
    rewrite at_index_cons.
    replace (k - Z.of_nat n - 1) with (k - Z.of_nat (S n)) by lia.
    destruct (k - Z.of_nat n =? 0) eqn:Hk.
    + apply Z.eqb_eq in Hk. assert (k = Z.of_nat n) as -> by lia.
      rewrite outcome_of_insert_eq, (outcome_of_fresh m n q Hfresh).
      assert (at_index qs (Z.of_nat n - Z.of_nat (S n)) = None) as Hout.
      { unfold at_index.
        assert ((Z.of_nat n - Z.of_nat (S n) <? 0) = true) as ->
          by (apply Z.ltb_lt; lia).
        reflexivity. }
      rewrite Hout, Nat.add_0_r in IH.
      rewrite (bool_decide_eq_false_2 (Unanswered = AnsweredWrong))
        by discriminate.
      destruct (bool_decide (v <> VBool (isTrue q))).
      * rewrite (bool_decide_eq_true_2 (AnsweredWrong = AnsweredWrong))
          by reflexivity.
        cbn [length]. rewrite IH. lia.
      * rewrite (bool_decide_eq_false_2 (AnsweredCorrect = AnsweredWrong))
          by discriminate.
        rewrite IH. lia.
    + apply Z.eqb_neq in Hk.
      rewrite outcome_of_insert_ne by lia.
      destruct (bool_decide (outcome_of m n q = AnsweredWrong));
        cbn [length]; rewrite IH; lia.
Qed.

(** The review screen counts the questions that were answered wrongly,
    and only those. *)
Lemma totalErrors_positions (st : State) :
  totalErrors st = positions AnsweredWrong st.
Proof.
  unfold totalErrors, positions, outcomes, outcome. f_equal.
  generalize (examQuestions st) as qs. intros qs.
  induction (answers st) as [|k v m Hfresh IH] using map_ind.
  - rewrite map_to_list_empty. cbn [List.filter length].
    rewrite (filter_imap_length _ (fun _ : unit => false) _
               (fun _ _ => tt)).
    + induction (imap (fun _ _ => tt) qs) as [|u l IHl];
        [reflexivity|exact IHl].
    + intros i q. unfold outcome_of. rewrite lookup_empty. reflexivity.
  - rewrite (filter_length_Permutation _ _ _ (map_to_list_insert m k v Hfresh)).
    assert (length (List.filter (fun o => bool_decide (o = AnsweredWrong))
                      (imap (outcome_of (<[k:=v]> m)) qs))
            = (length (List.filter (fun o => bool_decide (o = AnsweredWrong))
                         (imap (outcome_of m) qs))
               + match at_index qs k with
                 | Some q => if bool_decide (v <> VBool (isTrue q)) then 1 else 0
                 | None => 0
                 end)%nat) as Hins.
    { pose proof (wrong_positions_insert m k v qs 0 Hfresh) as H.
      rewrite Z.sub_0_r in H. exact H. }
    rewrite Hins. cbn [List.filter]. rewrite review_entry_counts.
    destruct (at_index qs k) as [q|]; [|lia].
    destruct (bool_decide (v <> VBool (isTrue q))); cbn [length]; lia.
Qed.

(** The review screen is short of the result screen by the number of
    unanswered questions: the two agree exactly when every question of
    the session has an answer. *)
Lemma totalErrors_errors (st : State) :
  totalErrors st = errors st - positions Unanswered st.
Proof. rewrite totalErrors_positions, errors_positions. lia. Qed.

(** *** Review against result *)

(** C9, evaluated where it fails: four questions, none answered. The
    result screen counts 4 errors and fails the candidate; the review
    screen of the same session counts 0 errors and shows "passed". *)
Theorem review_disagrees_with_result :
  errors (setPhase Result session_4_open) = 4
  /\ passed (setPhase Result session_4_open) = false
  /\ totalErrors (setPhase Review session_4_open) = 0
  /\ review_passed (setPhase Review session_4_open) = true.
Proof. vm_compute. repeat split; reflexivity. Qed.

(** *** The empty pool *)

Lemma shuffled_nil (sort : Sorter) (rnd : list bool) :
  rearranges sort -> shuffled sort rnd [] = [].
Proof.
  intros Hsort. unfold shuffled.
  rewrite (proj1 (Permutation_nil_r _) (Hsort rnd [])). reflexivity.
Qed.

(** C7 (as stated) fails: [start] has no guard. Applied to the state of
    a freshly mounted component, whose pool is empty, it sets the phase to
    ['exam']; and the start button can be reached with an empty pool, when
    the store's questions become empty after a session was sampled. *)
Lemma start_with_empty_pool_enters_exam :
  (questions initial = []
   /\ phase (start insertion_sorter [] 0 initial) = Exam)
  /\ exists w, run insertion_sorter emptied_pool_run mounted = Some w
               /\ questions (ui w) = [] /\ phase (ui w) = Exam.
Proof.
  split; [split; reflexivity|].
  eexists. split; [vm_compute; reflexivity|]. split; reflexivity.
Qed.

(** C7 (amended). With an empty pool [start] still sets the phase to
    ['exam'], with an empty question sequence, and what the component
    then renders is the empty-state, not the exam. While the pool and the
    session are both empty the component renders the empty-state and the
    start button is not on the screen. *)
Theorem empty_pool_shows_empty_state (sort : Sorter) (rnd : list bool)
    (now : Z) (st : State) :
  rearranges sort -> questions st = [] ->
  (phase (start sort rnd now st) = Exam
   /\ examQuestions (start sort rnd now st) = []
   /\ view (start sort rnd now st) = EmptyState)
  /\ (examQuestions st = [] ->
      view st = EmptyState
      /\ forall w, ui w = st -> step sort (ClickStart rnd now) w = None).
Proof.
  intros Hsort Hq. split.
  - unfold view. cbn [start phase examQuestions questions].
    rewrite Hq, (shuffled_nil sort rnd Hsort). repeat split.
  - intros He.
    assert (view st = EmptyState) as Hv by (unfold view; rewrite He, Hq; reflexivity).
    split; [exact Hv|]. intros w <-. cbn [step]. rewrite Hv. reflexivity.
Qed.

(** *** Sampling *)

Lemma insert_rnd_perm (x : Question) (l : list Question) (rnd : list bool) :
  fst (insert_rnd x l rnd) ≡ₚ x :: l.
Proof.
  revert rnd. induction l as [|y l IH]; intros rnd; [reflexivity|].
  destruct rnd as [|[] rnd]; cbn [insert_rnd fst]; try reflexivity.
  specialize (IH rnd). destruct (insert_rnd x l rnd) as [l' rnd'].
  cbn [fst] in *. rewrite IH. apply Permutation_swap.
Qed.

Lemma insertion_pass_perm (qs : list Question) (rnd : list bool) :
  fst (insertion_pass qs rnd) ≡ₚ qs.
Proof.
  induction qs as [|x qs IH]; [reflexivity|].
  cbn [insertion_pass]. destruct (insertion_pass qs rnd) as [sorted rnd'].
  cbn [fst] in IH. rewrite insert_rnd_perm, IH. reflexivity.
Qed.

Lemma insertion_sorter_rearranges : rearranges insertion_sorter.
Proof. intros rnd qs. apply insertion_pass_perm. Qed.

Section Sampling.
Variable sort : Sorter.
Hypothesis sort_rearranges : rearranges sort.

Lemma length_shuffled (rnd : list bool) (qs : list Question) :
  length (shuffled sort rnd qs) = Nat.min EXAM_QUESTIONS (length qs).
Proof.
  unfold shuffled. rewrite length_take.
  rewrite (Permutation_length (sort_rearranges rnd qs)). reflexivity.
Qed.

Lemma shuffled_prefix (rnd : list bool) (qs : list Question) :
  shuffled sort rnd qs ++ drop EXAM_QUESTIONS (sort rnd qs) ≡ₚ qs.
Proof. unfold shuffled. rewrite take_drop. apply sort_rearranges. Qed.

Lemma shuffled_ids_NoDup (rnd : list bool) (qs : list Question) :
  NoDup (map id qs) -> NoDup (map id (shuffled sort rnd qs)).
Proof.
  intros Hnd. unfold shuffled.
  apply (sublist_NoDup _ (map id (sort rnd qs))).
  - rewrite (Permutation_map id (sort_rearranges rnd qs)). exact Hnd.
  - rewrite <- firstn_map. apply sublist_take.
Qed.

Lemma shuffled_ids_subset (rnd : list bool) (qs : list Question) (x : string) :
  x ∈ map id (shuffled sort rnd qs) -> x ∈ map id qs.
Proof.
  intros Hx. unfold shuffled in Hx. rewrite <- firstn_map in Hx.
  apply (subseteq_take EXAM_QUESTIONS) in Hx.
  rewrite (Permutation_map id (sort_rearranges rnd qs)) in Hx. exact Hx.
Qed.

(** C3 (amended). For a pool whose identifiers are pairwise distinct,
    [start] produces a question sequence of length exactly
    min(30, pool size) that is the beginning of a rearrangement of the
    pool: every question of the session comes from the pool and no
    identifier occurs twice. How likely each sequence is depends on the
    host's sort and is not stated. *)
Theorem start_samples_without_replacement (rnd : list bool) (now : Z)
    (st : State) :
  NoDup (map id (questions st)) ->
  length (examQuestions (start sort rnd now st))
    = Nat.min EXAM_QUESTIONS (length (questions st))
  /\ NoDup (map id (examQuestions (start sort rnd now st)))
  /\ (forall x, x ∈ map id (examQuestions (start sort rnd now st)) ->
                x ∈ map id (questions st))
  /\ (exists rest,
        examQuestions (start sort rnd now st) ++ rest ≡ₚ questions st).
Proof.
  intros Hnd. cbn [start examQuestions]. split; [|split; [|split]].
  - apply length_shuffled.
  - apply shuffled_ids_NoDup, Hnd.
  - apply shuffled_ids_subset.
  - eexists. apply shuffled_prefix.
Qed.

End Sampling.

Lemma pool3_ids_NoDup : NoDup (map id pool3).
Proof. apply (bool_decide_unpack (NoDup (map id pool3))). vm_compute. exact I. Qed.

Lemma pool30_ids_NoDup : NoDup (map id pool30).
Proof. apply (bool_decide_unpack (NoDup (map id pool30))). vm_compute. exact I. Qed.

(** A pool of 30 and a pool of 3, under the sample host sort. *)
Lemma start_samples_without_replacement_witness :
  (NoDup (map id (questions (setQuestions pool30 initial)))
   /\ length (examQuestions
        (start insertion_sorter [true; false] 0 (setQuestions pool30 initial)))
      = 30%nat)
  /\ (NoDup (map id (questions (setQuestions pool3 initial)))
      /\ length (examQuestions
           (start insertion_sorter [true; false] 0 (setQuestions pool3 initial)))
         = 3%nat
      /\ NoDup (map id (examQuestions
           (start insertion_sorter [true; false] 0 (setQuestions pool3 initial))))).
Proof.
  split.
  - split; [exact pool30_ids_NoDup|].
    exact (proj1 (start_samples_without_replacement insertion_sorter
             insertion_sorter_rearranges [true; false] 0
             (setQuestions pool30 initial) pool30_ids_NoDup)).
  - split; [exact pool3_ids_NoDup|].
    destruct (start_samples_without_replacement insertion_sorter
                insertion_sorter_rearranges [true; false] 0
                (setQuestions pool3 initial) pool3_ids_NoDup)
      as (Hlen & Hnd & _).
    split; [exact Hlen | exact Hnd].
Defined.

Lemma empty_pool_shows_empty_state_witness :
  questions initial = []
  /\ phase (start insertion_sorter [] 0 initial) = Exam
  /\ view (start insertion_sorter [] 0 initial) = EmptyState
  /\ step insertion_sorter (ClickStart [] 0) mounted = None.
Proof.
  destruct (empty_pool_shows_empty_state insertion_sorter [] 0 initial
              insertion_sorter_rearranges eq_refl)
    as ((Hp & _ & Hv) & Hs).
  split; [reflexivity|]. split; [exact Hp|]. split; [exact Hv|].
  exact (proj2 (Hs eq_refl) mounted eq_refl).
Defined.

(** *** Uniformity *)

Lemma length_bitstrings (k : nat) : length (bitstrings k) = (2 ^ k)%nat.
Proof.
  induction k as [|k IH]; [reflexivity|].
  cbn [bitstrings]. rewrite length_app, !length_map, IH.
  rewrite Nat.pow_succ_r'. lia.
Qed.

(** A power of two is never a multiple of three. *)
Lemma pow2_not_multiple_of_3 (k c : nat) : (2 ^ k)%nat <> (3 * c)%nat.
Proof.
  assert (exists q, 2 ^ k = 3 * q + 1 \/ 2 ^ k = 3 * q + 2)%nat as (q & Hq).
  { induction k as [|k (q & [IH|IH])].
    - exists 0%nat. left. reflexivity.
    - exists (2 * q)%nat. right. rewrite Nat.pow_succ_r'. lia.
    - exists (2 * q + 1)%nat. left. rewrite Nat.pow_succ_r'. lia. }
  lia.
Qed.

Section Tally.
Context {R O : Type} `{EqDecision O}.
Variable f : R -> O.

(** Among pairwise distinct outcomes exactly one is the outcome of a
    given draw. *)
Lemma indicator_sum (x : O) (os : list O) :
  NoDup os -> x ∈ os ->
  sum_list_with (fun o => if bool_decide (x = o) then 1 else 0)%nat os = 1%nat.
Proof.
  induction 1 as [|o os Hnotin Hnd IH]; intros Hin.
  - inversion Hin.
  - cbn [sum_list_with]. destruct (decide (x = o)) as [->|Hne].
    + rewrite bool_decide_eq_true_2 by reflexivity.
      assert (sum_list_with
                (fun o' => if bool_decide (o = o') then 1 else 0)%nat os = 0%nat)
        as ->; [|reflexivity].
      clear IH Hnd Hin. induction os as [|o' os IH]; [reflexivity|].
      cbn [sum_list_with].
      rewrite bool_decide_eq_false_2, IH; [reflexivity| |].
      * intros Hin. apply Hnotin. right. exact Hin.
      * intros ->. apply Hnotin. left.
    + rewrite bool_decide_eq_false_2 by exact Hne.
      apply IH. inversion Hin; subst; [contradiction|assumption].
Qed.

(** The draws are shared out among the outcomes: the tallies add up to
    the number of draws. *)
Lemma tallies_add_up (os : list O) (draws : list R) :
  NoDup os -> (forall r, f r ∈ os) ->
  sum_list_with
    (fun o => length (List.filter (fun r => bool_decide (f r = o)) draws)) os
  = length draws.
Proof.
  intros Hnd Hall. induction draws as [|r draws IH].
  - clear. induction os as [|o os IH]; [reflexivity|exact IH].
  - cbn [length]. rewrite <- IH.
    change (S ?n) with (1 + n)%nat.
    rewrite <- (indicator_sum (f r) os Hnd (Hall r)).
    clear. induction os as [|o os IH]; [reflexivity|].
    cbn [sum_list_with]. rewrite IH. cbn [List.filter].
    destruct (bool_decide (f r = o)); cbn [length]; lia.
Qed.

Lemma sum_list_with_constant (g : O -> nat) (c : nat) (os : list O) :
  (forall o, o ∈ os -> g o = c) -> sum_list_with g os = (length os * c)%nat.
Proof.
  induction os as [|o os IH]; intros Hc; [reflexivity|].
  cbn [sum_list_with length]. rewrite (Hc o) by left.
  rewrite IH; [lia|]. intros o' Ho'. apply Hc. right. exact Ho'.
Qed.

End Tally.

(** C3 (as stated) fails on the pool of three questions: whatever sort
    the host uses and however many random bits it consumes, the six
    orders of the pool cannot all be equally likely, because the number
    of draws is a power of two. *)
Lemma start_not_uniform :
  ~ exists (sort : Sorter) (k : nat),
      rearranges sort /\ uniform_start sort k (setQuestions pool3 initial).
Proof.
  intros (sort & k & Hsort & Huni).
  set (st := setQuestions pool3 initial) in *.
  set (orders := permutations (map id pool3)).
  assert (forall o, o ∈ orders -> is_sample (questions st) o) as Hsample.
  { intros o Ho. apply permutations_Permutation in Ho.
    split; [|split].
    - rewrite <- Ho. exact pool3_ids_NoDup.
    - intros x Hx. cbn [st setQuestions questions]. rewrite Ho. exact Hx.
    - rewrite <- (Permutation_length Ho). reflexivity. }
  assert (forall rnd, session_ids sort rnd st ∈ orders) as Hall.
  { intros rnd. apply permutations_Permutation.
    unfold session_ids, shuffled. cbn [start examQuestions st setQuestions questions].
    unfold shuffled. rewrite take_ge.
    - symmetry. apply Permutation_map, Hsort.
    - rewrite (Permutation_length (Hsort rnd pool3)). vm_compute. lia. }
  assert (NoDup orders) as Hnd.
  { apply (bool_decide_unpack (NoDup orders)). vm_compute. exact I. }
  pose proof (tallies_add_up (fun rnd => session_ids sort rnd st) orders
                (bitstrings k) Hnd Hall) as Hsum.
  rewrite length_bitstrings in Hsum.
  rewrite (sum_list_with_constant _ (tally sort k st (map id pool3))) in Hsum.
  - change (length orders) with 6%nat in Hsum.
    apply (pow2_not_multiple_of_3 k (2 * tally sort k st (map id pool3))).
    lia.
  - intros o Ho. apply Huni; apply Hsample; [exact Ho|].
    apply permutations_Permutation. reflexivity.
Qed.

(** Under the sample host sort and three random bits, the order in which
    the pool was loaded comes out in 2 of the 8 draws and the reversed
    order in 1. *)
Example insertion_sorter_tallies :
  tally insertion_sorter 3 (setQuestions pool3 initial) ["a"; "b"; "c"]%string
    = 2%nat
  /\ tally insertion_sorter 3 (setQuestions pool3 initial) ["c"; "b"; "a"]%string
    = 1%nat.
Proof. vm_compute. split; reflexivity. Qed.

(** *** The event loop *)

Lemma Phase_eqb_eq (p q : Phase) : Phase_eqb p q = true <-> p = q.
Proof. destruct p, q; cbn; split; congruence. Qed.

Lemma view_ExamScreen (st : State) : view st = ExamScreen -> phase st = Exam.
Proof.
  unfold view.
  destruct ((length (examQuestions st) =? 0)%nat && (length (questions st) =? 0)%nat);
    [discriminate|].
  destruct (phase st); try discriminate. reflexivity.
Qed.

(** With an empty answer record no row is correct. *)
Lemma correctCount_no_answers (st : State) :
  answers st = ∅ -> correctCount st = 0.
Proof.
  intros He. unfold correctCount, answeredList.
  rewrite (filter_imap_length correct (fun _ : unit => false) _
             (fun _ _ => tt)).
  - induction (imap (fun _ _ => tt) (examQuestions st)) as [|u l IH];
      [reflexivity|exact IH].
  - intros i q. cbn. rewrite He, lookup_empty. reflexivity.
Qed.

Lemma commit_timer_inv (after : State) (w : World) :
  timer_inv w ->
  (Phase_eqb (phase after) (phase (ui w))
     && (startTime after =? startTime (ui w)) = false ->
   phase after = Exam -> answers after = ∅) ->
  timer_inv (commit after w).
Proof.
  unfold timer_inv, commit, timer_effect. cbn [interval ui].
  intros Hinv Hnew.
  destruct (Phase_eqb (phase after) (phase (ui w))
            && (startTime after =? startTime (ui w))) eqn:Hdeps.
  - apply andb_true_iff in Hdeps as [Hp Ht].
    apply Phase_eqb_eq in Hp. apply Z.eqb_eq in Ht.
    destruct (interval w) as [c|]; [|exact I].
    destruct Hinv as (? & ? & ?). repeat split; congruence.
  - destruct (phase after) eqn:Hp; try exact I.
    split; [reflexivity|]. split; [|reflexivity]. apply Hnew; reflexivity.
Qed.

(** A handler that leaves the phase and the start time alone leaves the
    interval alone. *)
Lemma commit_same_deps (after : State) (w : World) :
  phase after = phase (ui w) -> startTime after = startTime (ui w) ->
  timer_inv w -> timer_inv (commit after w).
Proof.
  intros Hp Ht Hinv. apply commit_timer_inv; [exact Hinv|].
  rewrite Hp, Ht, Z.eqb_refl, (proj2 (Phase_eqb_eq _ _) eq_refl).
  discriminate.
Qed.

Lemma call_finishExam_timer_inv (now : Z) (c : State) (w : World) :
  timer_inv w -> timer_inv (call_finishExam now c w).
Proof. intros H. exact H. Qed.

Lemma nextQuestion_deps (st : State) :
  phase (nextQuestion st) = phase st
  /\ startTime (nextQuestion st) = startTime st.
Proof.
  unfold nextQuestion.
  destruct (currentIndex st <? Z.of_nat (length (examQuestions st)) - 1);
    split; reflexivity.
Qed.

Lemma prevQuestion_deps (st : State) :
  phase (prevQuestion st) = phase st
  /\ startTime (prevQuestion st) = startTime st.
Proof.
  unfold prevQuestion. destruct (0 <? currentIndex st); split; reflexivity.
Qed.

Lemma sampling_effect_deps (sort : Sorter) (rnd : list bool) (st : State) :
  phase (sampling_effect sort rnd st) = phase st
  /\ startTime (sampling_effect sort rnd st) = startTime st.
Proof.
  unfold sampling_effect.
  destruct ((0 <? length (questions st))%nat
            && (length (examQuestions st) =? 0)%nat); split; reflexivity.
Qed.

(** Every turn of the event loop keeps [timer_inv]. *)
Lemma step_timer_inv (sort : Sorter) (ev : Event) (w w' : World) :
  timer_inv w -> step sort ev w = Some w' -> timer_inv w'.
Proof.
  intros Hinv Hstep. destruct ev; cbn [step] in Hstep.
  - injection Hstep as <-.
    apply commit_same_deps;
      [exact (proj1 (sampling_effect_deps sort rnd (setQuestions qs (ui w))))
      |exact (proj2 (sampling_effect_deps sort rnd (setQuestions qs (ui w))))
      |exact Hinv].
  - assert (w' = commit (start sort rnd now (ui w)) w) as ->
      by (destruct (view (ui w)); congruence).
    apply commit_timer_inv; [exact Hinv|reflexivity].
  - destruct (view (ui w)); try discriminate. injection Hstep as <-.
    apply commit_same_deps; [reflexivity|reflexivity|exact Hinv].
  - destruct (view (ui w)); try discriminate. injection Hstep as <-.
    apply commit_same_deps; [reflexivity|reflexivity|exact Hinv].
  - destruct (view (ui w)); try discriminate.
    destruct (showGrid (ui w) && (i <? length (examQuestions (ui w)))%nat);
      try discriminate.
    injection Hstep as <-.
    apply commit_same_deps; [reflexivity|reflexivity|exact Hinv].
  - destruct (view (ui w)); try discriminate. injection Hstep as <-.
    apply commit_same_deps;
      [exact (proj1 (nextQuestion_deps (ui w)))
      |exact (proj2 (nextQuestion_deps (ui w)))|exact Hinv].
  - destruct (view (ui w)); try discriminate. injection Hstep as <-.
    apply commit_same_deps;
      [exact (proj1 (prevQuestion_deps (ui w)))
      |exact (proj2 (prevQuestion_deps (ui w)))|exact Hinv].
  - destruct (view (ui w)); try discriminate. injection Hstep as <-.
    apply call_finishExam_timer_inv, Hinv.
  - destruct (interval w) as [c|] eqn:Hc; try discriminate.
    injection Hstep as <-.
    assert (timer_inv (commit (setElapsed ((now - startTime c) / 1000) (ui w)) w))
      as H by (apply commit_same_deps; [reflexivity|reflexivity|exact Hinv]).
    destruct (EXAM_TIME <=? (now - startTime c) / 1000);
      [apply call_finishExam_timer_inv|]; exact H.
  - destruct (awaiting w) as [|n]; try discriminate. injection Hstep as <-.
    destruct o; cbn [finishExam_resume].
    + apply commit_timer_inv; [exact Hinv|]. cbn. discriminate.
    + apply commit_same_deps; [reflexivity|reflexivity|exact Hinv].
  - destruct (view (ui w)); try discriminate. injection Hstep as <-.
    apply commit_timer_inv; [exact Hinv|]. cbn. discriminate.
  - destruct (view (ui w)); try discriminate. injection Hstep as <-.
    apply commit_timer_inv; [exact Hinv|]. cbn. discriminate.
Qed.

Lemma run_timer_inv (sort : Sorter) (evs : list Event) (w w' : World) :
  timer_inv w -> run sort evs w = Some w' -> timer_inv w'.
Proof.
  revert w. induction evs as [|ev evs IH]; intros w Hinv Hrun; cbn in Hrun.
  - injection Hrun as <-. exact Hinv.
  - destruct (step sort ev w) as [w1|] eqn:Hstep; [|discriminate].
    apply (IH w1); [|exact Hrun]. apply (step_timer_inv sort ev w); assumption.
Qed.

(** In every run from the mounted component the interval callback holds
    the render made by [start], whose answer record is empty. *)
Lemma interval_closure_has_no_answers (sort : Sorter) (evs : list Event)
    (w : World) (closure : State) :
  run sort evs mounted = Some w -> interval w = Some closure ->
  phase (ui w) = Exam /\ answers closure = ∅.
Proof.
  intros Hrun Hc.
  pose proof (run_timer_inv sort evs mounted w I Hrun) as Hinv.
  unfold timer_inv in Hinv. rewrite Hc in Hinv.
  destruct Hinv as (? & ? & _). split; assumption.
Qed.

(** [finishExam] is called only while the phase is ['exam']. *)
Lemma finishExam_called_in_exam (sort : Sorter) (ev : Event) (w w' : World) :
  timer_inv w -> step sort ev w = Some w' ->
  persisted w' = persisted w
  \/ (phase (ui w) = Exam /\ exists r, persisted w' = persisted w ++ [r]).
Proof.
  intros Hinv Hstep.
  destruct ev; cbn [step] in Hstep;
    [ | destruct (view (ui w)) eqn:Hv; try discriminate ..
      | | | destruct (view (ui w)) eqn:Hv; try discriminate
      | destruct (view (ui w)) eqn:Hv; try discriminate ];
    try (injection Hstep as <-; left; reflexivity).
  - destruct (showGrid (ui w) && (i <? length (examQuestions (ui w)))%nat);
      try discriminate.
    injection Hstep as <-. left. reflexivity.
  - injection Hstep as <-. right. split; [apply view_ExamScreen, Hv|].
    eexists. reflexivity.
  - destruct (interval w) as [c|] eqn:Hc; try discriminate.
    injection Hstep as <-.
    destruct (EXAM_TIME <=? (now - startTime c) / 1000);
      [right|left; reflexivity].
    unfold timer_inv in Hinv. rewrite Hc in Hinv.
    split; [apply Hinv|]. eexists. reflexivity.
  - destruct (awaiting w); try discriminate.
    injection Hstep as <-. left. reflexivity.
Qed.

(** The submit button persists the record of the answers on the screen. *)
Lemma submit_persists_current_answers (sort : Sorter) (now : Z)
    (w w' : World) :
  step sort (ClickSubmit now) w = Some w' ->
  persisted w' = persisted w ++ [quizResult now (ui w)].
Proof.
  cbn [step]. destruct (view (ui w)); try discriminate.
  intros H. injection H as <-. reflexivity.
Qed.

(** The record persisted when the time runs out is built from the
    interval's render: it never has a correct answer. *)
Lemma timeout_persists_no_correct_answer (sort : Sorter) (now : Z)
    (w w' : World) (r : QuizResult) :
  timer_inv w -> step sort (Tick now) w = Some w' ->
  persisted w' = persisted w ++ [r] -> correctAnswers r = 0.
Proof.
  intros Hinv Hstep Hr. cbn [step] in Hstep.
  destruct (interval w) as [c|] eqn:Hc; try discriminate.
  unfold timer_inv in Hinv. rewrite Hc in Hinv. destruct Hinv as (_ & He & _).
  injection Hstep as <-.
  destruct (EXAM_TIME <=? (now - startTime c) / 1000); cbn in Hr.
  - apply app_inv_head in Hr. injection Hr as <-.
    cbn. apply correctCount_no_answers, He.
  - exfalso. apply (f_equal length) in Hr. rewrite length_app in Hr.
    cbn in Hr. lia.
Qed.

(** C5, evaluated where it fails. One question, answered correctly; the
    time runs out and the interval fires twice before the persistence
    calls resolve. Two records are persisted in the one exam phase, and
    both are computed from the empty answer record of the render that
    [start] produced (0 correct, score 0), while the answers at that
    moment, shown on the result screen, give 1 correct and score 100. *)
Theorem timeout_persists_stale_answers :
  exists w,
    run insertion_sorter timeout_run mounted = Some w
    /\ phase (ui w) = Result
    /\ answers (ui w) !! 0 = Some (VBool true)
    /\ result_correctCount (ui w) = 1
    /\ result_score (ui w) = Some 100
    /\ length (persisted w) = 2%nat
    /\ map correctAnswers (persisted w) = [0; 0]
    /\ map score (persisted w) = [Some 0; Some 0].
Proof.
  eexists. split; [vm_compute; reflexivity|].
  vm_compute. repeat split; reflexivity.
Qed.

(** Submitted by hand, the same exam persists the answers on the screen. *)
Example submit_persists_right_answer :
  exists w,
    run insertion_sorter (submit_run Resolved) mounted = Some w
    /\ phase (ui w) = Result
    /\ map correctAnswers (persisted w) = [1]
    /\ map score (persisted w) = [Some 100].
Proof.
  eexists. split; [vm_compute; reflexivity|].
  vm_compute. repeat split; reflexivity.
Qed.

(** C6 (as stated) fails: when the persistence call rejects, the phase
    stays ['exam'] and the exam screen stays up; the result is not shown. *)
Lemma rejected_save_stays_in_exam :
  exists w,
    run insertion_sorter (submit_run Rejected) mounted = Some w
    /\ length (persisted w) = 1%nat
    /\ awaiting w = 0%nat
    /\ phase (ui w) = Exam
    /\ view (ui w) = ExamScreen.
Proof.
  eexists. split; [vm_compute; reflexivity|].
  vm_compute. repeat split; reflexivity.
Qed.

(** C6 (amended). When the persistence call made by [finishExam]
    settles, nothing more is persisted and the questions and answers in
    memory are untouched. If it resolved, the phase becomes ['result'],
    and the errors, verdict and score of the result screen are those of
    the session in memory. If it rejected, the state is left as it was:
    the phase does not change. *)
Theorem finishExam_after_save (sort : Sorter) (o : SaveOutcome)
    (w w' : World) :
  step sort (SaveSettled o) w = Some w' ->
  persisted w' = persisted w
  /\ examQuestions (ui w') = examQuestions (ui w)
  /\ answers (ui w') = answers (ui w)
  /\ match o with
     | Resolved =>
         phase (ui w') = Result
         /\ errors (ui w') = errors (ui w)
         /\ passed (ui w') = passed (ui w)
         /\ result_score (ui w') = result_score (ui w)
     | Rejected => ui w' = ui w
     end.
Proof.
  cbn [step]. destruct (awaiting w); [discriminate|].
  intros H. injection H as <-.
  destruct o; repeat split; reflexivity.
Qed.

Lemma finishExam_after_save_witness :
  (step insertion_sorter (SaveSettled Resolved) submitted_pool3
     = Some (settled_pool3 Resolved)
   /\ phase (ui (settled_pool3 Resolved)) = Result)
  /\ (step insertion_sorter (SaveSettled Rejected) submitted_pool3
        = Some (settled_pool3 Rejected)
      /\ ui (settled_pool3 Rejected) = ui submitted_pool3).
Proof.
  split; (split; [reflexivity|]).
  - exact (proj1 (proj2 (proj2 (proj2
      (finishExam_after_save insertion_sorter Resolved submitted_pool3
         (settled_pool3 Resolved) eq_refl))))).
  - exact (proj2 (proj2 (proj2
      (finishExam_after_save insertion_sorter Rejected submitted_pool3
         (settled_pool3 Rejected) eq_refl)))).
Defined.

(* ===================================================================== *)
(** ** Further properties of the exam simulator *)
(* ===================================================================== *)

(** *** The step function against the step relation *)

Lemma step_Step (sort : Sorter) (ev : Event) (w w' : World) :
  step sort ev w = Some w' -> Step sort w ev w'.
Proof.
  intros Hstep. destruct ev; cbn [step] in Hstep.
  - injection Hstep as <-. constructor.
  - destruct (view (ui w)) eqn:Hv; try discriminate;
      injection Hstep as <-; constructor; auto.
  - destruct (view (ui w)) eqn:Hv; try discriminate.
    injection Hstep as <-. constructor. exact Hv.
  - destruct (view (ui w)) eqn:Hv; try discriminate.
    injection Hstep as <-. constructor. exact Hv.
  - destruct (view (ui w)) eqn:Hv; try discriminate.
    destruct (showGrid (ui w)) eqn:Hg; cbn [andb] in Hstep; try discriminate.
    destruct (i <? length (examQuestions (ui w)))%nat eqn:Hi; try discriminate.
    injection Hstep as <-. constructor; [exact Hv|exact Hg|].
    apply Nat.ltb_lt, Hi.
  - destruct (view (ui w)) eqn:Hv; try discriminate.
    injection Hstep as <-. constructor. exact Hv.
  - destruct (view (ui w)) eqn:Hv; try discriminate.
    injection Hstep as <-. constructor. exact Hv.
  - destruct (view (ui w)) eqn:Hv; try discriminate.
    injection Hstep as <-. constructor. exact Hv.
  - destruct (interval w) as [c|] eqn:Hc; try discriminate.
    injection Hstep as <-. apply (Step_tick sort w now c Hc).
  - destruct (awaiting w) as [|n] eqn:Hn; try discriminate.
    injection Hstep as <-. apply (Step_settle sort w o n Hn).
  - destruct (view (ui w)) eqn:Hv; try discriminate.
    injection Hstep as <-. constructor. exact Hv.
  - destruct (view (ui w)) eqn:Hv; try discriminate.
    injection Hstep as <-. constructor. exact Hv.
Qed.

Lemma view_phase (st : State) :
  match view st with
  | EmptyState => examQuestions st = [] /\ questions st = []
  | IntroScreen => phase st = Intro
  | ResultScreen => phase st = Result
  | ReviewScreen => phase st = Review
  | Blank => phase st = Exam /\ at_index (examQuestions st) (currentIndex st) = None
  | ExamScreen =>
      phase st = Exam
      /\ exists q, at_index (examQuestions st) (currentIndex st) = Some q
  end.
Proof.
  unfold view.
  destruct (examQuestions st) as [|q0 qs] eqn:He;
    destruct (questions st) as [|p0 ps] eqn:Hq; cbn [length Nat.eqb andb];
    try (split; reflexivity);
    destruct (phase st); try reflexivity;
    match goal with
    | |- context [at_index ?l ?i] =>
        destruct (at_index l i) eqn:Hat; [split; [reflexivity|eauto]
                                         |split; reflexivity]
    end.
Qed.

Lemma at_index_Some_range {A} (l : list A) (i : Z) (x : A) :
  at_index l i = Some x -> 0 <= i < Z.of_nat (length l).
Proof.
  unfold at_index. destruct (i <? 0) eqn:Hi; [discriminate|].
  apply Z.ltb_ge in Hi. intros H. apply lookup_lt_Some in H. lia.
Qed.

(** *** Recording an answer *)

(** X1. [handleAnswer] records the value under the current index and
    nowhere else; answering the same question again replaces the earlier
    answer, so the last answer wins; the count of answered questions goes
    up by one for a question not answered before and stays as it is
    otherwise; questions, cursor, phase and timer are not touched. *)
Theorem handleAnswer_records (val : bool) (st : State) :
  answers (handleAnswer val st) !! currentIndex st = Some (VBool val)
  /\ (forall k, k <> currentIndex st ->
        answers (handleAnswer val st) !! k = answers st !! k)
  /\ (forall val', handleAnswer val' (handleAnswer val st) = handleAnswer val' st)
  /\ (answers st !! currentIndex st = None ->
        answeredCount (handleAnswer val st) = answeredCount st + 1)
  /\ (is_Some (answers st !! currentIndex st) ->
        answeredCount (handleAnswer val st) = answeredCount st)
  /\ (examQuestions (handleAnswer val st) = examQuestions st
      /\ currentIndex (handleAnswer val st) = currentIndex st
      /\ phase (handleAnswer val st) = phase st
      /\ startTime (handleAnswer val st) = startTime st
      /\ elapsed (handleAnswer val st) = elapsed st).
Proof.
  split; [apply lookup_insert_eq|].
  split; [intros k Hk; cbn; apply lookup_insert_ne; congruence|].
  split; [intros val'; unfold handleAnswer; cbn; rewrite insert_insert_eq;
          reflexivity|].
  split; [|split].
  - intros Hnone. unfold answeredCount. cbn [handleAnswer answers].
    rewrite (map_size_insert_None _ _ _ Hnone). lia.
  - intros Hsome. unfold answeredCount. cbn [handleAnswer answers].
    rewrite (map_size_insert_Some _ _ _ Hsome). reflexivity.
  - repeat split.
Qed.

Lemma handleAnswer_records_witness :
  answers session_pool3 !! currentIndex session_pool3 = None
  /\ answeredCount (handleAnswer true session_pool3)
     = answeredCount session_pool3 + 1
  /\ is_Some (answers (handleAnswer true session_pool3)
                !! currentIndex (handleAnswer true session_pool3))
  /\ answeredCount (handleAnswer false (handleAnswer true session_pool3))
     = answeredCount (handleAnswer true session_pool3).
Proof.
  assert (answers session_pool3 !! currentIndex session_pool3 = None) as Hn
    by reflexivity.
  assert (is_Some (answers (handleAnswer true session_pool3)
                     !! currentIndex (handleAnswer true session_pool3))) as Hs
    by (eexists; reflexivity).
  split; [exact Hn|]. split; [|split; [exact Hs|]].
  - exact (proj1 (proj2 (proj2 (proj2
             (handleAnswer_records true session_pool3)))) Hn).
  - exact (proj1 (proj2 (proj2 (proj2 (proj2
             (handleAnswer_records false (handleAnswer true session_pool3))))))
             Hs).
Defined.

(** *** The persisted record against the result screen *)

Lemma correctCount_result (st : State) :
  correctCount st = result_correctCount st.
Proof.
  rewrite correctCount_positions, result_correctCount_positions. reflexivity.
Qed.

(** X2. The record that [finishExam] builds from a state and the result
    screen rendered from the same state show the same figures: the same
    number of correct answers, the same number of errors and the same
    score; and correct answers and errors add up to the number of
    questions. *)
Theorem persisted_matches_result_screen (now : Z) (st : State) :
  correctAnswers (quizResult now st) = result_correctCount st
  /\ wrongAnswers (quizResult now st) = errors st
  /\ score (quizResult now st) = result_score st
  /\ result_correctCount st + errors st
     = Z.of_nat (length (examQuestions st)).
Proof.
  pose proof (correctCount_result st) as Hc.
  pose proof (positions_total st) as Htot.
  pose proof (errors_positions st) as He.
  pose proof (result_correctCount_positions st) as Hr.
  cbn [quizResult correctAnswers wrongAnswers score].
  split; [exact Hc|]. split; [lia|]. split; [|lia].
  unfold result_score. rewrite Hc. reflexivity.
Qed.

(** X3. With no question in the session, [finishExam] builds a record
    with zero totals whose score is not a number (0 / 0), and the result
    computations give no score, no error and the verdict "passed". *)
Theorem empty_session_has_no_score (now : Z) (st : State) :
  examQuestions st = [] ->
  totalQuestions (quizResult now st) = 0
  /\ correctAnswers (quizResult now st) = 0
  /\ wrongAnswers (quizResult now st) = 0
  /\ answeredEntries (quizResult now st) = []
  /\ score (quizResult now st) = None
  /\ result_score st = None
  /\ errors st = 0
  /\ passed st = true.
Proof.
  intros He.
  unfold passed, errors, result_score, result_correctCount, results.
  cbn [quizResult totalQuestions correctAnswers wrongAnswers score
       answeredEntries].
  unfold correctCount, answeredList. rewrite He. cbn.
  repeat split; vm_compute; reflexivity.
Qed.

Lemma empty_session_has_no_score_witness :
  examQuestions initial = []
  /\ score (quizResult 0 initial) = None
  /\ passed initial = true.
Proof.
  destruct (empty_session_has_no_score 0 initial eq_refl)
    as (_ & _ & _ & _ & Hs & _ & _ & Hp).
  split; [reflexivity|]. split; [exact Hs|exact Hp].
Defined.

(** *** Next and previous *)

(** X4. Within the session, "next" followed by "previous" and "previous"
    followed by "next" bring the component back to the state it was in;
    "next" does nothing on the last question and "previous" nothing on
    the first. *)
Theorem next_prev_inverse (st : State) :
  (0 <= currentIndex st < Z.of_nat (length (examQuestions st)) - 1 ->
     prevQuestion (nextQuestion st) = st)
  /\ (0 < currentIndex st < Z.of_nat (length (examQuestions st)) ->
        nextQuestion (prevQuestion st) = st)
  /\ (currentIndex st = Z.of_nat (length (examQuestions st)) - 1 ->
        nextQuestion st = st)
  /\ (currentIndex st = 0 -> prevQuestion st = st).
Proof.
  destruct st as [qs eqs c ans ph t0 el g].
  unfold nextQuestion, prevQuestion, setCurrentIndex.
  cbn [currentIndex examQuestions].
  split; [|split; [|split]]; intros H.
  - destruct (Z.ltb_spec c (Z.of_nat (length eqs) - 1)); [|lia].
    cbn [currentIndex examQuestions questions answers phase startTime
         elapsed showGrid].
    destruct (Z.ltb_spec 0 (c + 1)); [|lia]. f_equal. lia.
  - destruct (Z.ltb_spec 0 c); [|lia].
    cbn [currentIndex examQuestions questions answers phase startTime
         elapsed showGrid].
    destruct (Z.ltb_spec (c - 1) (Z.of_nat (length eqs) - 1)); [|lia].
    f_equal. lia.
  - destruct (Z.ltb_spec c (Z.of_nat (length eqs) - 1)); [lia|reflexivity].
  - destruct (Z.ltb_spec 0 c); [lia|reflexivity].
Qed.

Lemma next_prev_inverse_witness :
  0 <= currentIndex session_pool3
       < Z.of_nat (length (examQuestions session_pool3)) - 1
  /\ prevQuestion (nextQuestion session_pool3) = session_pool3.
Proof.
  assert (0 <= currentIndex session_pool3
               < Z.of_nat (length (examQuestions session_pool3)) - 1) as H
    by (vm_compute; split; [discriminate|reflexivity]).
  split; [exact H|exact (proj1 (next_prev_inverse session_pool3) H)].
Defined.

(** *** The clock *)

Lemma fmt_table_sound (bound s : Z) :
  fmt_table bound = true -> 0 <= s < bound ->
  fmt s = String (digit_char (s / 60 / 10))
            (String (digit_char ((s / 60) mod 10))
               (String ":"%char
                  (String (digit_char (s mod 60 / 10))
                     (String (digit_char ((s mod 60) mod 10))
                        EmptyString)))).
Proof.
  intros Htab Hs. unfold fmt_table in Htab. rewrite forallb_forall in Htab.
  specialize (Htab (Z.to_nat s)).
  rewrite Z2Nat.id in Htab by lia.
  apply String.eqb_eq, Htab, in_seq. lia.
Qed.

Lemma fmt_table_6000 : fmt_table 6000 = true.
Proof. vm_compute. reflexivity. Qed.

(** X5. For every number of seconds from 0 to 5999, [fmt] gives exactly
    five characters: the two decimal digits of the minutes, a colon, and
    the two decimal digits of the seconds within the minute. From 6000
    seconds on the minutes take three characters. *)
Theorem fmt_minutes_seconds :
  (forall s, 0 <= s < 6000 ->
     fmt s = String (digit_char (s / 60 / 10))
               (String (digit_char ((s / 60) mod 10))
                  (String ":"%char
                     (String (digit_char (s mod 60 / 10))
                        (String (digit_char ((s mod 60) mod 10))
                           EmptyString)))))
  /\ fmt 6000 = "100:00"%string.
Proof.
  split; [|vm_compute; reflexivity].
  intros s Hs. exact (fmt_table_sound 6000 s fmt_table_6000 Hs).
Qed.

Lemma fmt_minutes_seconds_witness :
  0 <= 1799 < 6000 /\ fmt 1799 = "29:59"%string.
Proof.
  assert (0 <= 1799 < 6000) as H by lia.
  split; [exact H|].
  rewrite (proj1 fmt_minutes_seconds 1799 H). vm_compute. reflexivity.
Defined.

(** *** Invariants along a run *)

(** A property that holds of the mounted component and is kept by every
    turn of the event loop holds after every run. *)
Lemma run_invariant (sort : Sorter) (P : World -> Prop) :
  P mounted ->
  (forall ev w w', P w -> Step sort w ev w' -> P w') ->
  forall evs w, run sort evs mounted = Some w -> P w.
Proof.
  intros H0 Hstep evs.
  assert (forall w0 w, P w0 -> run sort evs w0 = Some w -> P w) as Hgen.
  { induction evs as [|ev evs IH]; intros w0 w Hw0 Hrun; cbn in Hrun.
    - injection Hrun as <-. exact Hw0.
    - destruct (step sort ev w0) as [w1|] eqn:Hs; [|discriminate].
      apply (IH w1 w); [|exact Hrun].
      apply (Hstep ev w0 w1 Hw0), step_Step, Hs. }
  intros w. apply Hgen, H0.
Qed.

Lemma cursor_inv_reset (st : State) :
  currentIndex st = 0 -> cursor_inv st.
Proof.
  intros Hc. unfold cursor_inv. rewrite Hc. split; [lia|].
  destruct (examQuestions st) as [|q qs]; [right; split; reflexivity|].
  left. cbn [length]. lia.
Qed.

Lemma cursor_inv_empty (st : State) :
  cursor_inv st -> examQuestions st = [] -> currentIndex st = 0.
Proof.
  intros [H0 [Hlt|[_ Hc]]] He; [|exact Hc].
  rewrite He in Hlt. cbn in Hlt. lia.
Qed.

Lemma answers_inv_empty (st : State) :
  answers_inv st -> examQuestions st = [] -> forall k, answers st !! k = None.
Proof.
  intros Hinv He k. destruct (answers st !! k) as [v|] eqn:Hk; [|reflexivity].
  destruct (Hinv k v Hk) as [Hr _]. rewrite He in Hr. cbn in Hr. lia.
Qed.

Lemma step_cursor_answers (sort : Sorter) (ev : Event) (w w' : World) :
  cursor_inv (ui w) /\ answers_inv (ui w) ->
  Step sort w ev w' ->
  cursor_inv (ui w') /\ answers_inv (ui w').
Proof.
  intros [Hc Ha] Hstep.
  destruct Hstep as [qs rnd|rnd now Hv|val Hv|Hv|i Hv Hg Hi|Hv|Hv|now Hv
                    |now c Hiv|o n Hn|Hv|Hv];
    cbn [commit ui call_finishExam].
  - unfold sampling_effect. cbn [setQuestions questions examQuestions].
    destruct ((0 <? length qs)%nat && (length (examQuestions (ui w)) =? 0)%nat)
      eqn:Hcond; [|split; assumption].
    apply andb_true_iff in Hcond as [_ Hlen]. apply Nat.eqb_eq in Hlen.
    assert (examQuestions (ui w) = []) as He
      by (destruct (examQuestions (ui w)); [reflexivity|discriminate]).
    split.
    + apply cursor_inv_reset. cbn. apply (cursor_inv_empty _ Hc He).
    + intros k v Hk. cbn in Hk.
      rewrite (answers_inv_empty _ Ha He k) in Hk. discriminate.
  - split; [apply cursor_inv_reset; reflexivity|].
    intros k v Hk. cbn in Hk. rewrite lookup_empty in Hk. discriminate.
  - split; [exact Hc|]. intros k v Hk. cbn [handleAnswer answers examQuestions] in *.
    pose proof (view_phase (ui w)) as Hvp. rewrite Hv in Hvp.
    destruct Hvp as [_ [q Hq]]. apply at_index_Some_range in Hq.
    destruct (decide (k = currentIndex (ui w))) as [->|Hne].
    + rewrite lookup_insert_eq in Hk. injection Hk as <-.
      split; [exact Hq|eauto].
    + rewrite lookup_insert_ne in Hk by congruence. exact (Ha k v Hk).
  - split; assumption.
  - split; [|exact Ha]. unfold cursor_inv. cbn. split; [lia|left; lia].
  - split; [|unfold nextQuestion;
             destruct (currentIndex (ui w) <? _); exact Ha].
    unfold nextQuestion, cursor_inv in *.
    destruct (Z.ltb_spec (currentIndex (ui w))
                (Z.of_nat (length (examQuestions (ui w))) - 1));
      [cbn; split; [lia|left; lia]|exact Hc].
  - split; [|unfold prevQuestion;
             destruct (0 <? currentIndex (ui w)); exact Ha].
    unfold prevQuestion, cursor_inv in *.
    destruct (Z.ltb_spec 0 (currentIndex (ui w))); [|exact Hc].
    cbn. destruct Hc as [H0 [Hlt|[He Hz]]]; [split; [lia|left; lia]|lia].
  - split; assumption.
  - unfold tick. destruct (EXAM_TIME <=? _); cbn; split; assumption.
  - unfold settle. cbn [commit ui]. destruct o; cbn; split; assumption.
  - split; assumption.
  - split; assumption.
Qed.

(** The exam screen is what the exam phase shows as soon as the session
    has a question. *)
Lemma cursor_inv_view (st : State) :
  cursor_inv st -> phase st = Exam -> examQuestions st <> [] ->
  view st = ExamScreen.
Proof.
  intros [H0 [Hlt|[He _]]] Hp Hne; [|contradiction].
  unfold view. rewrite Hp.
  destruct (examQuestions st) as [|q qs] eqn:He; [contradiction|].
  cbn [length Nat.eqb andb]. unfold at_index.
  destruct (Z.ltb_spec (currentIndex st) 0); [lia|].
  destruct (lookup_lt_is_Some_2 (q :: qs) (Z.to_nat (currentIndex st)))
    as [x Hx]; [lia|].
  rewrite Hx. reflexivity.
Qed.

(** X6. In every run of the component the cursor points at a question of
    the session (it is 0 when the session is empty): no sequence of
    clicks moves it out of range, and whenever the phase is ['exam'] and
    the session has a question the exam screen is what is rendered. *)
Theorem cursor_stays_in_session (sort : Sorter) (evs : list Event)
    (w : World) :
  run sort evs mounted = Some w ->
  cursor_inv (ui w)
  /\ (phase (ui w) = Exam -> examQuestions (ui w) <> [] ->
      view (ui w) = ExamScreen
      /\ exists q, at_index (examQuestions (ui w)) (currentIndex (ui w)) = Some q).
Proof.
  intros Hrun.
  assert (cursor_inv (ui w) /\ answers_inv (ui w)) as [Hc _].
  { refine (run_invariant sort
              (fun w => cursor_inv (ui w) /\ answers_inv (ui w))
              _ (step_cursor_answers sort) evs w Hrun).
    split; [apply cursor_inv_reset; reflexivity|].
    intros k v Hk. cbn in Hk. rewrite lookup_empty in Hk. discriminate. }
  split; [exact Hc|]. intros Hp Hne.
  pose proof (cursor_inv_view _ Hc Hp Hne) as Hv. split; [exact Hv|].
  pose proof (view_phase (ui w)) as Hvp. rewrite Hv in Hvp. apply Hvp.
Qed.

Lemma cursor_stays_in_session_witness :
  exists w,
    run insertion_sorter (started_run ++ [ClickNext; ClickNext; ClickNext])
      mounted = Some w
    /\ cursor_inv (ui w).
Proof.
  destruct (run insertion_sorter
              (started_run ++ [ClickNext; ClickNext; ClickNext]) mounted)
    as [w|] eqn:Hrun; [|vm_compute in Hrun; discriminate].
  exists w. split; [reflexivity|].
  exact (proj1 (cursor_stays_in_session insertion_sorter _ w Hrun)).
Defined.

(** *** The answers along a run *)

Lemma unanswered_positions_insert (m : gmap Z AnswerValue) (k : Z)
    (v : AnswerValue) (qs : list Question) (n : nat) :
  m !! k = None ->
  (length (List.filter (fun o => bool_decide (o = Unanswered))
             (imap (fun i => outcome_of (<[k:=v]> m) (n + i)) qs))
   + match at_index qs (k - Z.of_nat n) with
     | Some _ => 1
     | None => 0
     end
   = length (List.filter (fun o => bool_decide (o = Unanswered))
               (imap (fun i => outcome_of m (n + i)) qs)))%nat.
Proof.
  intros Hfresh. revert n. induction qs as [|q qs IH]; intros n.
  - cbn. unfold at_index. destruct (k - Z.of_nat n <? 0); [reflexivity|].
    rewrite lookup_nil. reflexivity.
  - cbn [imap]. rewrite !imap_outcome_shift, Nat.add_0_r.
    cbn [List.filter]. specialize (IH (S n)).
    rewrite at_index_cons.
    replace (k - Z.of_nat n - 1) with (k - Z.of_nat (S n)) by lia.
    destruct (k - Z.of_nat n =? 0) eqn:Hk.
    + apply Z.eqb_eq in Hk. assert (k = Z.of_nat n) as -> by lia.
      rewrite outcome_of_insert_eq, (outcome_of_fresh m n q Hfresh).
      assert (at_index qs (Z.of_nat n - Z.of_nat (S n)) = None) as Hout.
      { unfold at_index.
        assert ((Z.of_nat n - Z.of_nat (S n) <? 0) = true) as ->
          by (apply Z.ltb_lt; lia).
        reflexivity. }
      rewrite Hout, Nat.add_0_r in IH.
      rewrite (bool_decide_eq_true_2 (Unanswered = Unanswered))
        by reflexivity.
      destruct (bool_decide (v <> VBool (isTrue q)));
        [rewrite (bool_decide_eq_false_2 (AnsweredWrong = Unanswered))
           by discriminate
        |rewrite (bool_decide_eq_false_2 (AnsweredCorrect = Unanswered))
           by discriminate];
        cbn [length]; rewrite IH; lia.
    + apply Z.eqb_neq in Hk.
      rewrite outcome_of_insert_ne by lia.
      destruct (bool_decide (outcome_of m n q = Unanswered));
        cbn [length]; rewrite <- IH; lia.
Qed.

(** When every key of the record names a question, the questions with a
    recorded answer and the unanswered positions make up the session. *)
Lemma answered_plus_unanswered (m : gmap Z AnswerValue) (qs : list Question) :
  (forall k v, m !! k = Some v -> 0 <= k < Z.of_nat (length qs)) ->
  (size m + length (List.filter (fun o => bool_decide (o = Unanswered))
                      (imap (outcome_of m) qs)) = length qs)%nat.
Proof.
  induction m as [|k v m Hfresh IH] using map_ind; intros Hkeys.
  - rewrite map_size_empty. cbn [Nat.add].
    rewrite <- (length_imap (outcome_of ∅) qs). f_equal.
    assert (forall l : list Outcome, Forall (fun o => o = Unanswered) l ->
              List.filter (fun o => bool_decide (o = Unanswered)) l = l)
      as Hall.
    { induction 1 as [|o l Ho _ IHl]; [reflexivity|].
      cbn. rewrite bool_decide_eq_true_2 by exact Ho. f_equal. exact IHl. }
    apply Hall, Forall_forall. intros o Ho.
    apply list_elem_of_lookup in Ho as [i Hi].
    rewrite list_lookup_imap in Hi.
    destruct (qs !! i); [|discriminate]. injection Hi as <-.
    unfold outcome_of. rewrite lookup_empty. reflexivity.
  - rewrite (map_size_insert_None _ _ _ Hfresh).
    assert (forall k' v', m !! k' = Some v' -> 0 <= k' < Z.of_nat (length qs))
      as Hm.
    { intros k' v' Hk'. apply (Hkeys k' v').
      rewrite lookup_insert_ne; [exact Hk'|]. intros ->. congruence. }
    specialize (IH Hm).
    assert (0 <= k < Z.of_nat (length qs)) as Hk
      by (apply (Hkeys k v), lookup_insert_eq).
    pose proof (unanswered_positions_insert m k v qs 0 Hfresh) as Hins.
    rewrite Z.sub_0_r in Hins.
    assert (exists q, at_index qs k = Some q) as [q Hq].
    { unfold at_index. destruct (Z.ltb_spec k 0); [lia|].
      apply lookup_lt_is_Some_2. lia. }
    rewrite Hq in Hins.
    assert (length (List.filter (fun o => bool_decide (o = Unanswered))
                      (imap (outcome_of (<[k:=v]> m)) qs)) + 1
            = length (List.filter (fun o => bool_decide (o = Unanswered))
                        (imap (outcome_of m) qs)))%nat as Hins' by exact Hins.
    lia.
Qed.

(** X7. In every run of the component, each recorded answer is a boolean
    recorded for a question of the session: [null] is never stored and no
    key lies outside the session. Hence at most as many answers as
    questions are counted, the "unanswered" figure of the result screen
    is the number of positions with no recorded answer, and the errors
    are the wrongly answered questions plus that figure. *)
Theorem answers_belong_to_session (sort : Sorter) (evs : list Event)
    (w : World) :
  run sort evs mounted = Some w ->
  answers_inv (ui w)
  /\ 0 <= answeredCount (ui w) <= Z.of_nat (length (examQuestions (ui w)))
  /\ unanswered (ui w) = positions Unanswered (ui w)
  /\ errors (ui w) = positions AnsweredWrong (ui w) + unanswered (ui w).
Proof.
  intros Hrun.
  assert (cursor_inv (ui w) /\ answers_inv (ui w)) as [_ Ha].
  { refine (run_invariant sort
              (fun w => cursor_inv (ui w) /\ answers_inv (ui w))
              _ (step_cursor_answers sort) evs w Hrun).
    split; [apply cursor_inv_reset; reflexivity|].
    intros k v Hk. cbn in Hk. rewrite lookup_empty in Hk. discriminate. }
  pose proof (answered_plus_unanswered (answers (ui w)) (examQuestions (ui w))
                (fun k v Hk => proj1 (Ha k v Hk))) as Hsum.
  pose proof (errors_positions (ui w)) as He.
  unfold unanswered, answeredCount, positions, outcomes, outcome in *.
  split; [exact Ha|]. lia.
Qed.

Lemma answers_belong_to_session_witness :
  exists w,
    run insertion_sorter
      (started_run ++ [ClickAnswer true; ClickNext; ClickAnswer true])
      mounted = Some w
    /\ unanswered (ui w) = positions Unanswered (ui w).
Proof.
  destruct (run insertion_sorter
              (started_run ++ [ClickAnswer true; ClickNext; ClickAnswer true])
              mounted)
    as [w|] eqn:Hrun; [|vm_compute in Hrun; discriminate].
  exists w. split; [reflexivity|].
  exact (proj1 (proj2 (proj2
           (answers_belong_to_session insertion_sorter _ w Hrun)))).
Defined.

(** *** The timer *)

Lemma commit_timer_live (after : State) (w : World) :
  (phase (ui w) = Exam -> interval w <> None) ->
  phase after = Exam -> interval (commit after w) <> None.
Proof.
  intros Hlive Hp. unfold commit, timer_effect. cbn [interval].
  destruct (Phase_eqb (phase after) (phase (ui w))
            && (startTime after =? startTime (ui w))) eqn:Hdeps.
  - apply andb_true_iff in Hdeps as [Hpe _]. apply Phase_eqb_eq in Hpe.
    apply Hlive. congruence.
  - rewrite Hp. discriminate.
Qed.

Lemma step_timer_live (sort : Sorter) (ev : Event) (w w' : World) :
  (phase (ui w) = Exam -> interval w <> None) ->
  Step sort w ev w' ->
  phase (ui w') = Exam -> interval w' <> None.
Proof.
  intros Hlive Hstep.
  destruct Hstep as [qs rnd|rnd now Hv|val Hv|Hv|i Hv Hg Hi|Hv|Hv|now Hv
                    |now c Hiv|o n Hn|Hv|Hv];
    try (apply commit_timer_live; exact Hlive).
  - exact Hlive.
  - unfold tick. destruct (EXAM_TIME <=? _);
      cbn [call_finishExam ui interval]; apply commit_timer_live; exact Hlive.
Qed.

Lemma timer_runs_exactly_in_exam_aux (sort : Sorter) (evs : list Event)
    (w : World) :
  run sort evs mounted = Some w ->
  (phase (ui w) <> Exam -> interval w = None)
  /\ (phase (ui w) = Exam -> interval w <> None).
Proof.
  intros Hrun.
  pose proof (run_timer_inv sort evs mounted w I Hrun) as Hinv.
  split.
  - intros Hp. unfold timer_inv in Hinv.
    destruct (interval w) as [c|]; [|reflexivity].
    destruct Hinv as (He & _). contradiction.
  - refine (run_invariant sort
              (fun w => phase (ui w) = Exam -> interval w <> None)
              _ (step_timer_live sort) evs w Hrun).
    cbn. discriminate.
Qed.

(** X8. In every run of the component an interval is set exactly while
    the phase is ['exam']: none before the start, none on the result and
    review screens, none left over after the exam was left; and the
    interval measures the time from the start time on the screen. *)
Theorem timer_runs_exactly_in_exam (sort : Sorter) (evs : list Event)
    (w : World) :
  run sort evs mounted = Some w ->
  (interval w = None <-> phase (ui w) <> Exam)
  /\ (forall closure, interval w = Some closure ->
        startTime closure = startTime (ui w)).
Proof.
  intros Hrun.
  pose proof (run_timer_inv sort evs mounted w I Hrun) as Hinv.
  assert (phase (ui w) = Exam -> interval w <> None) as Hlive.
  { refine (run_invariant sort
              (fun w => phase (ui w) = Exam -> interval w <> None)
              _ (step_timer_live sort) evs w Hrun).
    cbn. discriminate. }
  unfold timer_inv in Hinv. split; [split|].
  - intros Hnone Hp. exact (Hlive Hp Hnone).
  - intros Hp. destruct (interval w) as [c|]; [|reflexivity].
    destruct Hinv as (He & _). contradiction.
  - intros c Hc. rewrite Hc in Hinv. apply Hinv.
Qed.

Lemma timer_runs_exactly_in_exam_witness :
  exists w,
    run insertion_sorter (submit_run Resolved) mounted = Some w
    /\ phase (ui w) <> Exam /\ interval w = None.
Proof.
  destruct (run insertion_sorter (submit_run Resolved) mounted)
    as [w|] eqn:Hrun; [|vm_compute in Hrun; discriminate].
  assert (phase (ui w) <> Exam) as Hp.
  { vm_compute in Hrun. injection Hrun as <-. discriminate. }
  exists w. split; [reflexivity|]. split; [exact Hp|].
  exact (proj2 (proj1 (timer_runs_exactly_in_exam insertion_sorter _ w Hrun))
           Hp).
Defined.

(** X9. A tick of the interval sets the elapsed time to the whole
    seconds between the start time and now, whatever it was before, and
    changes nothing else on the screen; it calls [finishExam] exactly
    when at least 1800 seconds (1 800 000 ms) have passed since the
    start, which is exactly when the remaining time shown is zero. *)
Theorem tick_follows_wall_clock (sort : Sorter) (evs : list Event)
    (now : Z) (w w' : World) :
  run sort evs mounted = Some w ->
  step sort (Tick now) w = Some w' ->
  ui w' = setElapsed ((now - startTime (ui w)) / 1000) (ui w)
  /\ (1800000 <= now - startTime (ui w) <->
      exists r, persisted w' = persisted w ++ [r])
  /\ (now - startTime (ui w) < 1800000 <-> persisted w' = persisted w)
  /\ (remaining (ui w') = 0 <-> 1800000 <= now - startTime (ui w)).
Proof.
  intros Hrun Hstep.
  pose proof (run_timer_inv sort evs mounted w I Hrun) as Hinv.
  cbn [step] in Hstep. unfold timer_inv in Hinv.
  destruct (interval w) as [c|]; [|discriminate].
  destruct Hinv as (_ & _ & Ht). rewrite Ht in Hstep.
  assert (EXAM_TIME <= (now - startTime (ui w)) / 1000
          <-> 1800000 <= now - startTime (ui w)) as Hdiv.
  { unfold EXAM_TIME.
    pose proof (Z.div_mod (now - startTime (ui w)) 1000 ltac:(lia)).
    pose proof (Z.mod_pos_bound (now - startTime (ui w)) 1000 ltac:(lia)).
    lia. }
  destruct (Z.leb_spec EXAM_TIME ((now - startTime (ui w)) / 1000)) as [Hle|Hlt];
    injection Hstep as <-; cbn [call_finishExam commit ui persisted].
  - split; [reflexivity|]. split; [split; [eauto|intros _; lia]|].
    split; [split; [lia|]|].
    + intros Heq. apply (f_equal length) in Heq.
      rewrite length_app in Heq. cbn in Heq. lia.
    + unfold remaining. cbn [setElapsed elapsed]. lia.
  - split; [reflexivity|]. split; [split; [lia|]|].
    + intros [r Heq]. apply (f_equal length) in Heq.
      rewrite length_app in Heq. cbn in Heq. lia.
    + split; [split; [reflexivity|lia]|].
      unfold remaining. cbn [setElapsed elapsed]. lia.
Qed.

Lemma tick_follows_wall_clock_witness :
  exists w w',
    run insertion_sorter started_run mounted = Some w
    /\ step insertion_sorter (Tick 61500) w = Some w'
    /\ elapsed (ui w') = 61 /\ persisted w' = persisted w.
Proof.
  destruct (run insertion_sorter started_run mounted)
    as [w|] eqn:Hrun; [|vm_compute in Hrun; discriminate].
  destruct (step insertion_sorter (Tick 61500) w)
    as [w'|] eqn:Hstep;
    [|vm_compute in Hrun; injection Hrun as <-; vm_compute in Hstep;
      discriminate].
  destruct (tick_follows_wall_clock insertion_sorter _ 61500 w w' Hrun Hstep)
    as (Hui & _ & Hno & _).
  exists w, w'. split; [reflexivity|]. split; [exact Hstep|].
  assert (startTime (ui w) = 0) as Ht
    by (vm_compute in Hrun; injection Hrun as <-; reflexivity).
  split.
  - rewrite Hui, Ht. reflexivity.
  - apply Hno. rewrite Ht. lia.
Defined.

(** *** The phases *)

(** X10. A turn of the event loop changes the phase only in these ways:
    the start button takes ['intro'] or ['result'] to ['exam']; a
    persistence call that resolves sets ['result']; the review button
    takes ['result'] to ['review'] and the back button ['review'] to
    ['result']. In particular ['intro'] is never entered again, and
    ['exam'] is left only when a persistence call resolves. *)
Theorem phase_transitions (sort : Sorter) (ev : Event) (w w' : World) :
  step sort ev w = Some w' ->
  phase (ui w') = phase (ui w)
  \/ ((phase (ui w) = Intro \/ phase (ui w) = Result)
      /\ phase (ui w') = Exam /\ exists rnd now, ev = ClickStart rnd now)
  \/ (phase (ui w') = Result /\ ev = SaveSettled Resolved)
  \/ (phase (ui w) = Result /\ phase (ui w') = Review /\ ev = ClickReview)
  \/ (phase (ui w) = Review /\ phase (ui w') = Result
      /\ ev = ClickBackToResult).
Proof.
  intros Hstep. apply step_Step in Hstep.
  pose proof (view_phase (ui w)) as Hvp.
  destruct Hstep as [qs rnd|rnd now Hv|val Hv|Hv|i Hv Hg Hi|Hv|Hv|now Hv
                    |now c Hiv|o n Hn|Hv|Hv];
    cbn [commit ui call_finishExam].
  - left. exact (proj1 (sampling_effect_deps sort rnd (setQuestions qs (ui w)))).
  - right. left. split; [|split; [reflexivity|eauto]].
    destruct Hv as [Hv|Hv]; rewrite Hv in Hvp; auto.
  - left. reflexivity.
  - left. reflexivity.
  - left. reflexivity.
  - left. exact (proj1 (nextQuestion_deps (ui w))).
  - left. exact (proj1 (prevQuestion_deps (ui w))).
  - left. reflexivity.
  - left. unfold tick. destruct (EXAM_TIME <=? _); reflexivity.
  - unfold settle. cbn [commit ui]. destruct o.
    + right. right. left. split; reflexivity.
    + left. reflexivity.
  - rewrite Hv in Hvp. right. right. right. left. repeat split. exact Hvp.
  - rewrite Hv in Hvp. right. right. right. right. repeat split. exact Hvp.
Qed.

Lemma phase_transitions_witness :
  step insertion_sorter (ClickStart [] 7) (settled_pool3 Resolved)
  = Some (commit (start insertion_sorter [] 7 (ui (settled_pool3 Resolved)))
            (settled_pool3 Resolved))
  /\ (phase (ui (commit (start insertion_sorter [] 7
                           (ui (settled_pool3 Resolved)))
                   (settled_pool3 Resolved)))
      = phase (ui (settled_pool3 Resolved))
      \/ phase (ui (settled_pool3 Resolved)) = Result).
Proof.
  split; [reflexivity|].
  destruct (phase_transitions insertion_sorter (ClickStart [] 7)
              (settled_pool3 Resolved) _ eq_refl)
    as [H|[(H & _)|[(_ & H)|[(H & _)|(H & _)]]]].
  - left. exact H.
  - right. destruct H as [H|H]; [discriminate H|exact H].
  - discriminate H.
  - right. exact H.
  - discriminate H.
Defined.

(** X11. While the phase is ['exam'] and the session has a question, no
    event changes the question sequence or the start time: the session is
    fixed until a new start, and questions that load or change in the
    store meanwhile do not reach it. *)
Theorem session_fixed_during_exam (sort : Sorter) (ev : Event)
    (w w' : World) :
  phase (ui w) = Exam -> examQuestions (ui w) <> [] ->
  step sort ev w = Some w' ->
  examQuestions (ui w') = examQuestions (ui w)
  /\ startTime (ui w') = startTime (ui w).
Proof.
  intros Hp Hne Hstep. apply step_Step in Hstep.
  pose proof (view_phase (ui w)) as Hvp.
  destruct Hstep as [qs rnd|rnd now Hv|val Hv|Hv|i Hv Hg Hi|Hv|Hv|now Hv
                    |now c Hiv|o n Hn|Hv|Hv];
    cbn [commit ui call_finishExam]; try (split; reflexivity).
  - unfold sampling_effect. cbn [setQuestions questions examQuestions].
    destruct (examQuestions (ui w)) as [|q l] eqn:He; [contradiction|].
    cbn [length Nat.eqb]. rewrite andb_false_r. cbn. rewrite He.
    split; reflexivity.
  - destruct Hv as [Hv|Hv]; rewrite Hv in Hvp; congruence.
  - unfold nextQuestion. destruct (currentIndex (ui w) <? _);
      split; reflexivity.
  - unfold prevQuestion. destruct (0 <? currentIndex (ui w));
      split; reflexivity.
  - unfold tick. destruct (EXAM_TIME <=? _); split; reflexivity.
  - unfold settle. cbn [commit ui]. destruct o; split; reflexivity.
Qed.

Lemma session_fixed_during_exam_witness :
  phase (ui running_pool3) = Exam
  /\ examQuestions (ui running_pool3) <> []
  /\ step insertion_sorter (QuestionsLoaded pool30 [true]) running_pool3
     = Some (commit (sampling_effect insertion_sorter [true]
                       (setQuestions pool30 (ui running_pool3)))
               running_pool3)
  /\ examQuestions (ui (commit (sampling_effect insertion_sorter [true]
                                  (setQuestions pool30 (ui running_pool3)))
                          running_pool3))
     = examQuestions (ui running_pool3).
Proof.
  assert (examQuestions (ui running_pool3) <> []) as Hne by discriminate.
  split; [reflexivity|]. split; [exact Hne|]. split; [reflexivity|].
  exact (proj1 (session_fixed_during_exam insertion_sorter
                  (QuestionsLoaded pool30 [true]) running_pool3 _
                  eq_refl Hne eq_refl)).
Defined.

(** X12. Going from the result screen to the review and back leaves the
    component exactly as it was: the same state, no interval, nothing
    persisted, so the result shown afterwards is the one shown before. *)
Theorem review_and_back (sort : Sorter) (evs : list Event) (w : World) :
  run sort evs mounted = Some w ->
  view (ui w) = ResultScreen ->
  run sort [ClickReview; ClickBackToResult] w = Some w.
Proof.
  intros Hrun Hv.
  pose proof (view_phase (ui w)) as Hvp. rewrite Hv in Hvp.
  destruct (timer_runs_exactly_in_exam_aux sort evs w Hrun) as [Hnone _].
  assert (interval w = None) as Hi by (apply Hnone; congruence).
  destruct w as [st iv aw ps]. cbn [ui interval] in *. subst iv.
  destruct st as [qs eqs c ans ph t0 el g]. cbn [phase] in Hvp. subst ph.
  cbn [run step ui]. rewrite Hv.
  unfold view in Hv |- *. cbn [examQuestions questions phase setPhase commit ui] in *.
  destruct ((length eqs =? 0)%nat && (length qs =? 0)%nat); [discriminate|].
  reflexivity.
Qed.

Lemma review_and_back_witness :
  exists w,
    run insertion_sorter (submit_run Resolved) mounted = Some w
    /\ view (ui w) = ResultScreen
    /\ run insertion_sorter [ClickReview; ClickBackToResult] w = Some w.
Proof.
  destruct (run insertion_sorter (submit_run Resolved) mounted)
    as [w|] eqn:Hrun; [|vm_compute in Hrun; discriminate].
  assert (view (ui w) = ResultScreen) as Hv
    by (vm_compute in Hrun; injection Hrun as <-; reflexivity).
  exists w. split; [reflexivity|]. split; [exact Hv|].
  exact (review_and_back insertion_sorter _ w Hrun Hv).
Defined.

(** *** Sampling when the questions arrive *)

(** X13. When questions arrive in the store and no session has been
    sampled yet, the component samples one from them: for a pool with
    pairwise distinct identifiers the session has min(30, pool size)
    questions, all from the pool, none twice; the phase, the cursor and
    the answers are not touched. When a session exists already, the
    arrival of questions does not change it. *)
Theorem questions_loaded_samples_session (sort : Sorter) (qs : list Question)
    (rnd : list bool) (w w' : World) :
  rearranges sort -> NoDup (map id qs) ->
  step sort (QuestionsLoaded qs rnd) w = Some w' ->
  questions (ui w') = qs
  /\ phase (ui w') = phase (ui w)
  /\ currentIndex (ui w') = currentIndex (ui w)
  /\ answers (ui w') = answers (ui w)
  /\ persisted w' = persisted w
  /\ (examQuestions (ui w) <> [] ->
      examQuestions (ui w') = examQuestions (ui w))
  /\ (examQuestions (ui w) = [] ->
      length (examQuestions (ui w')) = Nat.min EXAM_QUESTIONS (length qs)
      /\ NoDup (map id (examQuestions (ui w')))
      /\ (forall x, x ∈ map id (examQuestions (ui w')) -> x ∈ map id qs)).
Proof.
  intros Hsort Hnd Hstep. cbn [step] in Hstep. injection Hstep as <-.
  cbn [commit ui persisted]. unfold sampling_effect.
  cbn [setQuestions questions examQuestions].
  destruct (examQuestions (ui w)) as [|q0 l] eqn:He.
  - destruct qs as [|q qs'].
    + cbn [length Nat.ltb Nat.leb andb].
      cbn [setQuestions questions phase currentIndex answers examQuestions].
      rewrite He.
      split; [reflexivity|]. split; [reflexivity|]. split; [reflexivity|].
      split; [reflexivity|]. split; [reflexivity|].
      split; [intros H; contradiction|]. intros _.
      split; [reflexivity|]. split; [constructor|]. intros x Hx. exact Hx.
    + cbn [length Nat.ltb Nat.leb Nat.eqb andb].
      cbn [setExamQuestions questions phase currentIndex answers
           examQuestions].
      split; [reflexivity|]. split; [reflexivity|]. split; [reflexivity|].
      split; [reflexivity|]. split; [reflexivity|].
      split; [intros H; contradiction|]. intros _.
      split; [apply (length_shuffled sort Hsort)|].
      split; [apply (shuffled_ids_NoDup sort Hsort), Hnd|].
      apply (shuffled_ids_subset sort Hsort).
  - cbn [length Nat.eqb]. rewrite andb_false_r.
    cbn [setQuestions questions phase currentIndex answers examQuestions].
    rewrite He.
    split; [reflexivity|]. split; [reflexivity|]. split; [reflexivity|].
    split; [reflexivity|]. split; [reflexivity|].
    split; [intros _; reflexivity|]. intros Habs. discriminate Habs.
Qed.

Lemma questions_loaded_samples_session_witness :
  NoDup (map id pool30)
  /\ step insertion_sorter (QuestionsLoaded pool30 [true; false]) mounted
     = Some (commit (sampling_effect insertion_sorter [true; false]
                       (setQuestions pool30 initial)) mounted)
  /\ length (examQuestions
               (ui (commit (sampling_effect insertion_sorter [true; false]
                              (setQuestions pool30 initial)) mounted)))
     = 30%nat.
Proof.
  split; [exact pool30_ids_NoDup|]. split; [reflexivity|].
  destruct (questions_loaded_samples_session insertion_sorter pool30
              [true; false] mounted _ insertion_sorter_rearranges
              pool30_ids_NoDup eq_refl)
    as (_ & _ & _ & _ & _ & _ & Hnew).
  exact (proj1 (Hnew eq_refl)).
Defined.

(** *** The persisted answer list *)

Lemma entries_ids (f g : nat -> Question -> bool) (l : list Question) :
  map questionId
    (imap (fun i q => {| questionId := id q; userAnswer := f i q;
                         correct := g i q |}) l)
  = map id l.
Proof.
  revert f g. induction l as [|q l IH]; intros f g; [reflexivity|].
  cbn [imap map questionId]. f_equal.
  exact (IH (fun i => f (S i)) (fun i => g (S i))).
Qed.

(** X14. The answer list of the record that [finishExam] builds has one
    entry for each question of the session, in the order of the session,
    each carrying the identifier of its question; and the number of
    entries marked correct is the number of correct answers of the
    record. *)
Theorem persisted_entries_follow_session (now : Z) (st : State) :
  map questionId (answeredEntries (quizResult now st))
  = map id (examQuestions st)
  /\ Z.of_nat (length (answeredEntries (quizResult now st)))
     = totalQuestions (quizResult now st)
  /\ Z.of_nat (length (List.filter correct
                         (answeredEntries (quizResult now st))))
     = correctAnswers (quizResult now st).
Proof.
  cbn [quizResult answeredEntries totalQuestions correctAnswers].
  split; [|split; [rewrite length_answeredList; reflexivity|reflexivity]].
  exact (entries_ids
           (fun i _ => nullish (answers st !! Z.of_nat i) false)
           (fun i q => strict_eq (answers st !! Z.of_nat i) (isTrue q))
           (examQuestions st)).
Qed.

End ExamSimulatorSpec.

(* ===================================================================== *)
(** ** Properties of the community page *)
(* ===================================================================== *)

Module CommunitySpec.
Import Community.

(** *** Replies *)

Lemma prefix_append (p s : string) : String.prefix p (p ++ s) = true.
Proof.
  induction p as [|c p IH]; [destruct s; reflexivity|].
  change (String c p ++ s)%string with (String c (p ++ s))%string.
  cbn [String.prefix]. destruct (ascii_dec c c); [exact IH|contradiction].
Qed.

Lemma drop_chars_append (p s : string) :
  drop_chars (String.length p) (p ++ s) = s.
Proof.
  induction p as [|c p IH]; [destruct s; reflexivity|]. exact IH.
Qed.

Lemma span_non_colon_parent (parent rest : string) :
  LanguageContext.free_of ":" parent = true ->
  span_non_colon (parent ++ String ":" rest) = (parent, String ":" rest).
Proof.
  induction parent as [|c p IH]; [reflexivity|].
  cbn [LanguageContext.free_of]. intros H.
  apply andb_true_iff in H as [Hc Hp].
  change (String c p ++ String ":" rest)%string
    with (String c (p ++ String ":" rest))%string.
  cbn [span_non_colon]. destruct (Ascii.eqb c ":"); [discriminate|].
  rewrite (IH Hp). reflexivity.
Qed.

Lemma match_reply_reply_content (parent text : string) :
  parent <> EmptyString -> LanguageContext.free_of ":" parent = true ->
  match_reply (reply_content parent text) = Some (parent, text).
Proof.
  intros Hne Hfree. unfold match_reply, reply_content.
  rewrite prefix_append, drop_chars_append.
  change (parent ++ ":" ++ text)%string
    with (parent ++ String ":" text)%string.
  rewrite (span_non_colon_parent parent text Hfree).
  destruct parent; [contradiction|reflexivity].
Qed.

(** X23. What [handleReply] writes, the thread functions read back: for
    a parent id that is not empty and contains no colon, and any reply
    text, the content ["REPLY_TO:" + id + ":" + text] is recognised as a
    reply, its parent id is the id and its reply content is the text, even
    when the text itself contains colons or starts with ["REPLY_TO:"]. *)
Theorem reply_round_trip (cid parent text : string) :
  parent <> EmptyString -> LanguageContext.free_of ":" parent = true ->
  let c := {| comment_id := cid; content := reply_content parent text |} in
  isReply c = true /\ getParentId c = Some parent
  /\ getReplyContent c = text.
Proof.
  intros Hne Hfree c.
  assert (isReply c = true) as Hr by apply prefix_append.
  split; [exact Hr|]. unfold getParentId, getReplyContent. rewrite Hr.
  cbn [content c]. rewrite (match_reply_reply_content parent text Hne Hfree).
  split; reflexivity.
Qed.

Lemma reply_round_trip_witness :
  "c1"%string <> EmptyString
  /\ LanguageContext.free_of ":" "c1" = true
  /\ getParentId {| comment_id := "c2";
                    content := reply_content "c1" "REPLY_TO:x: ok" |}
     = Some "c1"%string
  /\ getReplyContent {| comment_id := "c2";
                        content := reply_content "c1" "REPLY_TO:x: ok" |}
     = "REPLY_TO:x: ok"%string.
Proof.
  assert ("c1"%string <> EmptyString) as Hne by discriminate.
  destruct (reply_round_trip "c2" "c1" "REPLY_TO:x: ok" Hne eq_refl)
    as (_ & Hp & Ht).
  split; [exact Hne|]. split; [reflexivity|]. split; [exact Hp|exact Ht].
Defined.

Lemma filter_In_iff {A} (f : A -> bool) (x : A) (l : list A) :
  In x (List.filter f l) <-> In x l /\ f x = true.
Proof. apply filter_In. Qed.

(** X24. A comment is shown in at most one place: a root comment is
    never listed among the replies to any comment, and a reply is listed
    under one parent only. A comment whose content starts with
    ["REPLY_TO:"] but carries no parent id (no second colon, or nothing
    between the colons) is shown nowhere: neither as a root comment nor
    as a reply; the comment box does not keep a user from typing one. *)
Theorem thread_places (cmts : list Comment) (c : Comment) :
  (In c (rootComments cmts) -> forall p, ~ In c (getReplies p cmts))
  /\ (forall p q, In c (getReplies p cmts) -> In c (getReplies q cmts) ->
        p = q)
  /\ (isReply c = true -> getParentId c = None ->
        ~ In c (rootComments cmts) /\ forall p, ~ In c (getReplies p cmts))
  /\ (forall cid s, LanguageContext.free_of ":" s = true ->
        let typed := {| comment_id := cid;
                        content := (REPLY_PREFIX ++ s)%string |} in
        isReply typed = true /\ getParentId typed = None).
Proof.
  unfold rootComments, getReplies. split; [|split; [|split]].
  - intros Hroot p Hrep.
    apply filter_In_iff in Hroot as [_ Hroot].
    apply filter_In_iff in Hrep as [_ Hrep].
    unfold getParentId in Hrep.
    destruct (isReply c); [discriminate Hroot|discriminate Hrep].
  - intros p q Hp Hq.
    apply filter_In_iff in Hp as [_ Hp]. apply filter_In_iff in Hq as [_ Hq].
    destruct (getParentId c) as [parent|]; [|discriminate].
    apply String.eqb_eq in Hp, Hq. congruence.
  - intros Hr Hnone. split.
    + intros H. apply filter_In_iff in H as [_ H]. rewrite Hr in H.
      discriminate.
    + intros p H. apply filter_In_iff in H as [_ H]. rewrite Hnone in H.
      discriminate.
  - intros cid s Hfree.
    set (typed := {| comment_id := cid;
                     content := (REPLY_PREFIX ++ s)%string |}).
    assert (isReply typed = true) as Hr by apply prefix_append.
    split; [exact Hr|]. unfold getParentId. rewrite Hr.
    unfold match_reply. cbn [content typed].
    rewrite prefix_append, drop_chars_append.
    assert (snd (span_non_colon s) = EmptyString) as Hsnd.
    { clear -Hfree. induction s as [|c s IH]; [reflexivity|].
      cbn [LanguageContext.free_of] in Hfree.
      apply andb_true_iff in Hfree as [Hc Hs].
      cbn [span_non_colon]. destruct (Ascii.eqb c ":"); [discriminate|].
      specialize (IH Hs). destruct (span_non_colon s). exact IH. }
    destruct (span_non_colon s) as [p r]. cbn [snd] in Hsnd. subst r.
    destruct p; reflexivity.
Qed.

Lemma thread_places_witness :
  isReply {| comment_id := "c9"; content := "REPLY_TO: see above" |} = true
  /\ getParentId {| comment_id := "c9"; content := "REPLY_TO: see above" |}
     = None
  /\ ~ In {| comment_id := "c9"; content := "REPLY_TO: see above" |}
         (rootComments
            [ {| comment_id := "c9"; content := "REPLY_TO: see above" |} ]).
Proof.
  split; [reflexivity|]. split; [reflexivity|].
  exact (proj1 (proj1 (proj2 (proj2
           (thread_places
              [ {| comment_id := "c9"; content := "REPLY_TO: see above" |} ]
              {| comment_id := "c9"; content := "REPLY_TO: see above" |})))
           eq_refl eq_refl)).
Defined.

(** *** Follows and likes *)

Lemma existsb_eqb_In (u : string) (l : list string) :
  existsb (String.eqb u) l = true <-> In u l.
Proof.
  rewrite existsb_exists. split.
  - intros (x & Hx & He). apply String.eqb_eq in He. subst. exact Hx.
  - intros H. exists u. split; [exact H|apply String.eqb_refl].
Qed.

Lemma filter_other_In (u v : string) (l : list string) :
  In v (List.filter (fun i => negb (String.eqb i u)) l)
  <-> In v l /\ v <> u.
Proof.
  rewrite filter_In. split; intros [H1 H2]; (split; [exact H1|]).
  - intros ->. rewrite String.eqb_refl in H2. discriminate.
  - destruct (String.eqb_spec v u); [contradiction|reflexivity].
Qed.

Lemma filter_absent (u : string) (l : list string) :
  ~ In u l -> List.filter (fun i => negb (String.eqb i u)) l = l.
Proof.
  induction l as [|x l IH]; [reflexivity|]. intros Hn. cbn.
  destruct (String.eqb_spec x u) as [->|Hne].
  - exfalso. apply Hn. left. reflexivity.
  - cbn. f_equal. apply IH. intros H. apply Hn. right. exact H.
Qed.

(** X25. For a signed-in user, [toggleFollow] flips whether the user id
    is followed and leaves every other id as it was: an id that was not
    followed is added at the end, an id that was followed is removed
    everywhere. A list without repetitions stays without repetitions,
    following and unfollowing again gives back the list one started
    from, and without a signed-in user nothing changes. *)
Theorem toggleFollow_flips (me u : string) (following : list string) :
  (In u (toggleFollow (Some me) u following) <-> ~ In u following)
  /\ (forall v, v <> u ->
        (In v (toggleFollow (Some me) u following) <-> In v following))
  /\ (NoDup following -> NoDup (toggleFollow (Some me) u following))
  /\ (~ In u following ->
        toggleFollow (Some me) u (toggleFollow (Some me) u following)
        = following)
  /\ toggleFollow None u following = following.
Proof.
  unfold toggleFollow at 1 2 3.
  destruct (existsb (String.eqb u) following) eqn:Hex.
  - assert (In u following) as Hin by (apply existsb_eqb_In, Hex).
    split; [|split; [|split; [|split]]].
    + rewrite filter_other_In. split; [intros [_ H]; contradiction|].
      intros H. contradiction.
    + intros v Hv. rewrite filter_other_In. split; [intros [H _]; exact H|].
      intros H. split; assumption.
    + intros Hnd. apply NoDup_ListNoDup, List.NoDup_filter,
        NoDup_ListNoDup, Hnd.
    + intros H. contradiction.
    + reflexivity.
  - assert (~ In u following) as Hnin.
    { intros H. apply existsb_eqb_In in H. congruence. }
    split; [|split; [|split; [|split]]].
    + rewrite in_app_iff. split; [intros _; exact Hnin|].
      intros _. right. left. reflexivity.
    + intros v Hv. rewrite in_app_iff. split; [|intros H; left; exact H].
      intros [H|[H|[]]]; [exact H|congruence].
    + intros Hnd. apply NoDup_app. split; [exact Hnd|]. split.
      * intros x Hx Hxu. apply list_elem_of_In in Hx.
        apply list_elem_of_singleton in Hxu. subst x. contradiction.
      * apply NoDup_singleton.
    + intros _. unfold toggleFollow. rewrite Hex.
      assert (existsb (String.eqb u) (following ++ [u]) = true) as ->.
      { apply existsb_eqb_In, in_app_iff. right. left. reflexivity. }
      rewrite List.filter_app, (filter_absent u following Hnin). cbn.
      rewrite String.eqb_refl. cbn. apply app_nil_r.
    + reflexivity.
Qed.

Lemma toggleFollow_flips_witness :
  ~ In "u3"%string ["u1"; "u2"]%string
  /\ toggleFollow (Some "me"%string) "u3"
       (toggleFollow (Some "me"%string) "u3" ["u1"; "u2"]%string)
     = ["u1"; "u2"]%string.
Proof.
  assert (~ In "u3"%string ["u1"; "u2"]%string) as H
    by (intros [H|[H|[]]]; discriminate H).
  split; [exact H|].
  exact (proj1 (proj2 (proj2 (proj2
           (toggleFollow_flips "me" "u3" ["u1"; "u2"]%string)))) H).
Defined.



End CommunitySpec.
